(** * archive-tools-web: subtitle track generation and speaker renaming

    A shallow embedding of [app.py]: the timestamp formatter, the
    segment/speaker resolver, the placeholder allocation loop of [index],
    the job table [generated_files] and the handlers [download] and
    [update_speakers], followed by the properties proved about them.

    Conventions of the embedding.
    - A Python [str] is a [string]; a character is an [ascii], read as the
      code point of the same number (code points below 256).
    - A time in seconds is a Python [float], a finite double; it is held
      as the rational number [Q] it denotes.  The midpoint of a segment
      is computed as the source does, in double precision: the sum is
      rounded to the nearest double ([F64.round]).  In [format_timestamp]
      the operations [//] and [%] are the exact ones: on doubles with
      0 <= seconds < 2^53 the source computes them without rounding, and
      the statements about the fields of a timestamp are made for that
      range.
    - A Python [dict] whose iteration order is observable
      ([placeholder_map], [new_mapping], a job's own fields) is an
      association list in insertion order with unique keys; the job table
      [generated_files], only ever looked up and updated by key, is a
      [gmap]. *)

From Stdlib Require Import ZArith QArith Qround List Ascii String Bool Lia Lqa.
From stdpp Require Import base option strings gmap.

Import ListNotations.
Local Open Scope string_scope.
Local Open Scope Z_scope.

(* stdpp keeps [simpl] from unfolding string concatenation; it is allowed
   again here, where it meets a constructor. *)
#[local] Arguments String.append !_ _ / : simpl nomatch.

(** ** Strings *)

Module Str.

(** The line feed ["\n"]. *)
Definition nl : string := String "010"%char EmptyString.

(** [str.isspace] on one character, for code points below 256. *)
Definition is_space (c : ascii) : bool :=
  let n := nat_of_ascii c in
  (((9 <=? n) && (n <=? 13)) || ((28 <=? n) && (n <=? 32))
   || (n =? 133) || (n =? 160))%nat.

Fixpoint lstrip (s : string) : string :=
  match s with
  | EmptyString => EmptyString
  | String c s' => if is_space c then lstrip s' else s
  end.

Fixpoint rstrip (s : string) : string :=
  match s with
  | EmptyString => EmptyString
  | String c s' =>
      match rstrip s' with
      | EmptyString => if is_space c then EmptyString else String c EmptyString
      | r => String c r
      end
  end.

(** [s.strip()] *)
Definition strip (s : string) : string := rstrip (lstrip s).

Fixpoint drop (n : nat) (s : string) : string :=
  match n, s with
  | O, _ => s
  | S _, EmptyString => EmptyString
  | S k, String _ s' => drop k s'
  end.

(** The scan of [str.replace] for a non-empty [old]: left to right, an
    occurrence found is replaced and the scan resumes behind it; [skip]
    counts the characters of a replaced occurrence still to be passed. *)
Fixpoint replace_from (old new : string) (skip : nat) (s : string) : string :=
  match s with
  | EmptyString => EmptyString
  | String c s' =>
      match skip with
      | S k => replace_from old new k s'
      | O =>
          if String.prefix old s
          then new ++ replace_from old new (String.length old - 1) s'
          else String c (replace_from old new 0 s')
      end
  end.

Fixpoint intersperse (new : string) (s : string) : string :=
  match s with
  | EmptyString => EmptyString
  | String c s' => String c (new ++ intersperse new s')
  end.

(** [s.replace(old, new)]; for an empty [old] Python puts [new] before
    every character and at the end. *)
Definition replace (old new s : string) : string :=
  match old with
  | EmptyString => new ++ intersperse new s
  | String _ _ => replace_from old new 0 s
  end.

(** [t in s] for strings: [t] occurs in [s] as a substring. *)
Fixpoint contains (t s : string) : bool :=
  String.prefix t s ||
  match s with
  | EmptyString => false
  | String _ s' => contains t s'
  end.

(** [c] is one of the digits 0..9. *)
Definition is_digit (c : ascii) : bool :=
  let n := nat_of_ascii c in ((48 <=? n) && (n <=? 57))%nat.

Fixpoint all_digits (s : string) : bool :=
  match s with
  | EmptyString => true
  | String c s' => is_digit c && all_digits s'
  end.

(** No opening square bracket among the characters of [s]. *)
Fixpoint no_open (s : string) : bool :=
  match s with
  | EmptyString => true
  | String c s' => negb (Ascii.eqb c "["%char) && no_open s'
  end.

(** No square bracket among the characters of [s]. *)
Fixpoint bracket_free (s : string) : bool :=
  match s with
  | EmptyString => true
  | String c s' =>
      negb (Ascii.eqb c "["%char) && negb (Ascii.eqb c "]"%char) && bracket_free s'
  end.

End Str.

(** ** Number formatting *)

Module Fmt.

Definition digit (d : Z) : ascii := ascii_of_nat (48 + Z.to_nat d).

(** Decimal digits of [n >= 0], most significant first, in front of [acc]. *)
Fixpoint digits_from (fuel : nat) (n : Z) (acc : string) : string :=
  let acc' := String (digit (n mod 10)) acc in
  match fuel with
  | O => acc'
  | S f => if n / 10 =? 0 then acc' else digits_from f (n / 10) acc'
  end.

Definition digits (n : Z) : string :=
  digits_from (Z.to_nat (Z.log2 n)) n EmptyString.

Fixpoint zeros (k : nat) : string :=
  match k with
  | O => EmptyString
  | S k' => String "0"%char (zeros k')
  end.

(** Zero padding on the left up to [width] characters. *)
Definition zfill (width : nat) (s : string) : string :=
  zeros (width - String.length s) ++ s.

(** [f"{n:0<width>d}"]: the sign first, then zeros, then the digits. *)
Definition fmt_0d (width : nat) (n : Z) : string :=
  if n <? 0 then String "-"%char (zfill (width - 1) (digits (- n)))
  else zfill width (digits n).

(** Rounding to the nearest integer, ties to even. *)
Definition round_half_even (x : Q) : Z :=
  let n := Qnum x in
  let d := Z.pos (Qden x) in
  let q := n / d in
  let r := n mod d in
  match 2 * r ?= d with
  | Lt => q
  | Gt => q + 1
  | Eq => if Z.even q then q else q + 1
  end.

(** [m] thousandths written with three decimals. *)
Definition fixed3 (m : Z) : string :=
  digits (m / 1000) ++ "." ++ zfill 3 (digits (m mod 1000)).

(** [f"{x:0<width>.3f}"]: [x] rounded to three decimals, ties to even. *)
Definition fmt_0_3f (width : nat) (x : Q) : string :=
  let m := Z.abs (round_half_even (x * 1000)) in
  if Qle_bool 0 x then zfill width (fixed3 m)
  else String "-"%char (zfill (width - 1) (fixed3 m)).

End Fmt.

(** ** [format_timestamp] *)

(** [x // y] on floats, as a number.  For doubles [x] with 0 <= x < 2^53
    and [y] one of 60 and 3600 the source computes [x // y] and [x % y]
    without rounding: the remainder is exact, and [x] less the remainder
    is a whole number below 2^53. *)
Definition floordiv (x y : Q) : Q := inject_Z (Qfloor (x / y)).

(** [x % y] for [y > 0]. *)
Definition pymod (x y : Q) : Q := x - y * inject_Z (Qfloor (x / y)).

(** [int(x)]: truncation toward zero. *)
Definition py_int (x : Q) : Z := Z.quot (Qnum x) (Z.pos (Qden x)).

Definition format_timestamp (seconds : Q) : string :=
  let hours := py_int (floordiv seconds 3600) in
  let minutes := py_int (floordiv (pymod seconds 3600) 60) in
  let secs := pymod seconds 60 in
  Fmt.fmt_0d 2 hours ++ ":" ++ Fmt.fmt_0d 2 minutes ++ ":" ++ Fmt.fmt_0_3f 6 secs.

(** ** Exceptions *)

Inductive exn : Type :=
| KeyError (key : string)
| IndexError
| ValueError (msg : string)
| AttributeError (msg : string).

Inductive result (A : Type) : Type :=
| Ok (a : A)
| Raise (e : exn).
Arguments Ok {A} a.
Arguments Raise {A} e.

Definition bind {A B : Type} (m : result A) (k : A -> result B) : result B :=
  match m with
  | Ok a => k a
  | Raise e => Raise e
  end.

Notation "'let!' x ':=' m 'in' k" := (bind m (fun x => k))
  (at level 10, x name, m at level 100, k at level 200).

(** ** Insertion-ordered dictionaries with string keys *)

Module Dict.
Section Dict.
Context {V : Type}.

Definition t : Type := list (string * V).

(** [d.get(k)] *)
Fixpoint get (k : string) (d : t) : option V :=
  match d with
  | [] => None
  | (k', v) :: d' => if String.eqb k' k then Some v else get k d'
  end.

(** [k in d] *)
Definition mem (k : string) (d : t) : bool :=
  match get k d with Some _ => true | None => false end.

(** [d[k]] *)
Definition getitem (d : t) (k : string) : result V :=
  match get k d with Some v => Ok v | None => Raise (KeyError k) end.

(** [d[k] = v]: a key already there keeps its place, a new one goes last. *)
Fixpoint setitem (k : string) (v : V) (d : t) : t :=
  match d with
  | [] => [(k, v)]
  | (k', v') :: d' =>
      if String.eqb k' k then (k', v) :: d' else (k', v') :: setitem k v d'
  end.

Definition keys (d : t) : list string := map fst d.
Definition values (d : t) : list V := map snd d.

End Dict.
Arguments t V : clear implicits.
End Dict.
Bind Scope list_scope with Dict.t.

(** ** Segments, diarization turns and the speaker of a segment *)

(** A segment of the transcription: [segment["start"]], [segment["end"]],
    [segment["text"]]. *)
Record segment : Type := {
  seg_start : Q;
  seg_end : Q;
  seg_text : string
}.

Record turn : Type := {
  turn_start : Q;
  turn_end : Q
}.

(** What [diarization.itertracks(yield_label=True)] enumerates:
    (turn, track name, speaker label), in the collaborator's order. *)
Definition tracks : Type := list (turn * string * string).
Bind Scope list_scope with tracks.

(** Double precision arithmetic on the numbers that doubles denote: what
    [+], [/] and [<=] of the source compute on finite operands. *)
Module F64.

(** The result of an operation: a finite double or an infinity. *)
Inductive t : Type :=
| Finite (x : Q)
| Infinity (negative : bool).

(** [2 ^ e], also for negative [e]. *)
Definition pow2 (e : Z) : Q :=
  if 0 <=? e then inject_Z (2 ^ e) else (1 / inject_Z (2 ^ (- e)))%Q.

Definition abs (x : Q) : Q := if Qle_bool 0 x then x else (- x)%Q.

(** The binary exponent of [x <> 0]: [2 ^ e <= |x| < 2 ^ (e + 1)]. *)
Definition exponent (x : Q) : Z :=
  let e := Z.log2 (Z.abs (Qnum x)) - Z.log2 (Z.pos (Qden x)) in
  if Qle_bool (pow2 e) (abs x) then e else e - 1.

(** Rounding to the nearest double, ties to even: 53 significant bits,
    the last of them worth no less than [2 ^ -1074], and an infinity
    when the rounded magnitude reaches [2 ^ 1024]. *)
Definition round (x : Q) : t :=
  if Qeq_bool x 0 then Finite 0
  else
    let ulp := pow2 (Z.max (exponent x - 52) (-1074)) in
    let r := (inject_Z (Fmt.round_half_even (x / ulp)) * ulp)%Q in
    if Qle_bool (pow2 1024) (abs r) then Infinity (negb (Qle_bool 0 x))
    else Finite r.

(** [x + y] *)
Definition add (x y : Q) : t := round (x + y).

(** [x / 2] *)
Definition half (x : t) : t :=
  match x with
  | Finite a => round (a / 2)
  | Infinity negative => Infinity negative
  end.

(** [x <= y] *)
Definition leb (x y : t) : bool :=
  match x, y with
  | Finite a, Finite b => Qle_bool a b
  | Infinity true, _ => true
  | _, Infinity false => true
  | _, _ => false
  end.

End F64.

Definition in_turn (t : turn) (mid_time : F64.t) : bool :=
  F64.leb (F64.Finite (turn_start t)) mid_time
  && F64.leb mid_time (F64.Finite (turn_end t)).

Fixpoint scan_tracks (its : tracks) (mid_time : F64.t) : string :=
  match its with
  | [] => "Unknown"
  | (t, _, speaker) :: rest =>
      if in_turn t mid_time then speaker else scan_tracks rest mid_time
  end.

Definition get_speaker_for_segment
    (diarization : option tracks) (start end_ : Q) : string :=
  let mid_time := F64.half (F64.add start end_) in
  match diarization with
  | None => "Unknown"
  | Some its => scan_tracks its mid_time
  end.

(** ** Step 5 of [index]: building the WebVTT text *)

Record build_state : Type := {
  vtt_lines : list string;
  placeholder_map : Dict.t string;
  counter : Z
}.

(** [f"SPEAKER_{counter:02d}"] *)
Definition speaker_label (counter : Z) : string :=
  "SPEAKER_" ++ Fmt.fmt_0d 2 counter.

(** One pass of the body of [for segment in segments]. *)
Definition build_step (diarization : option tracks) (st : build_state)
    (sg : segment) : result build_state :=
  let start_ts := format_timestamp (seg_start sg) in
  let end_ts := format_timestamp (seg_end sg) in
  let text := Str.strip (seg_text sg) in
  let orig_speaker :=
    get_speaker_for_segment diarization (seg_start sg) (seg_end sg) in
  let '(pm, cnt) :=
    if negb (Dict.mem orig_speaker (placeholder_map st))
    then (Dict.setitem orig_speaker (speaker_label (counter st)) (placeholder_map st),
          counter st + 1)
    else (placeholder_map st, counter st) in
  let! placeholder := Dict.getitem pm orig_speaker in
  Ok {| vtt_lines :=
          vtt_lines st
            ++ [start_ts ++ " --> " ++ end_ts]
            ++ ["[" ++ placeholder ++ "] " ++ text]
            ++ [""];
        placeholder_map := pm;
        counter := cnt |}.

Fixpoint build_loop (diarization : option tracks) (segments : list segment)
    (st : build_state) : result build_state :=
  match segments with
  | [] => Ok st
  | sg :: rest =>
      let! st' := build_step diarization st sg in
      build_loop diarization rest st'
  end.

Definition build_init : build_state :=
  {| vtt_lines := ["WEBVTT"; ""]; placeholder_map := []; counter := 1 |}.

(** [(vtt_content, placeholder_map)] as step 5 leaves them. *)
Definition build_vtt (diarization : option tracks) (segments : list segment)
    : result (string * Dict.t string) :=
  let! st := build_loop diarization segments build_init in
  Ok (String.concat Str.nl (vtt_lines st), placeholder_map st).

(** ** The job table and the responses of the handlers *)

(** A job as [index] stores it: the dictionary with the keys ["vtt"],
    ["transcript"], ["video_path"] and ["placeholder_map"]. *)
Record job : Type := {
  job_vtt : string;
  job_transcript : string;
  job_video_path : string;
  job_placeholder_map : Dict.t string
}.

(** A value held by a job: a string or the placeholder dictionary. *)
Inductive pyval : Type :=
| VStr (s : string)
| VDict (d : Dict.t string).

(** The job read as the dictionary it is, in the order of its keys. *)
Definition job_items (j : job) : Dict.t pyval :=
  [ ("vtt", VStr (job_vtt j));
    ("transcript", VStr (job_transcript j));
    ("video_path", VStr (job_video_path j));
    ("placeholder_map", VDict (job_placeholder_map j)) ].

(** [generated_files[uid]["vtt"] = v] *)
Definition set_vtt (v : string) (j : job) : job :=
  {| job_vtt := v;
     job_transcript := job_transcript j;
     job_video_path := job_video_path j;
     job_placeholder_map := job_placeholder_map j |}.

Inductive response : Type :=
| Text (body : string) (status : Z)
| Template (name : string) (error : option string) (uid : option string)
    (placeholders : list string)
| SendFile (content : string) (download_name : string) (mimetype : string)
| SendPath (path : string).

(** [content.encode("utf-8")], kept as the text it encodes; a dictionary
    has no [encode]. *)
Definition encode (content : pyval) : result string :=
  match content with
  | VStr s => Ok s
  | VDict _ => Raise (AttributeError "'dict' object has no attribute 'encode'")
  end.

Definition video (generated_files : gmap string job) (uid : string) : response :=
  match generated_files !! uid with
  | None => Text "Video not found" 404
  | Some j =>
      if negb (Dict.mem "video_path" (job_items j)) then Text "Video not found" 404
      else SendPath (job_video_path j)
  end.

(** [download]; [file_type] is [request.args.get("type")], [None] when the
    query string has no such parameter. *)
Definition download (generated_files : gmap string job) (uid : string)
    (file_type : option string) : result response :=
  let not_found := Text "Requested file not found." 404 in
  match generated_files !! uid with
  | None => Ok not_found
  | Some j =>
      match file_type with
      | None => Ok not_found
      | Some ft =>
          if negb (Dict.mem ft (job_items j)) then Ok not_found
          else
            let! content := Dict.getitem (job_items j) ft in
            let '(filename, mimetype) :=
              if String.eqb ft "vtt" then ("subtitles.vtt", "text/vtt")
              else if String.eqb ft "transcript" then ("transcript.txt", "text/plain")
              else ("file.txt", "text/plain") in
            let! bytes := encode content in
            Ok (SendFile bytes filename mimetype)
      end
  end.

(** ** [update_speakers] *)

(** [value.strip() if value.strip() != "" else key] *)
Definition new_name (key value : string) : string :=
  if negb (String.eqb (Str.strip value) "") then Str.strip value else key.

(** The dictionary [new_mapping] built from [request.form.items()]. *)
Fixpoint build_new_mapping (items : list (string * string))
    (new_mapping : Dict.t string) : Dict.t string :=
  match items with
  | [] => new_mapping
  | (key, value) :: rest =>
      build_new_mapping rest (Dict.setitem key (new_name key value) new_mapping)
  end.

(** The bracketed token [f"[{name}]"]. *)
Definition token (name : string) : string := "[" ++ name ++ "]".

(** The loop over [new_mapping.items()]. *)
Fixpoint apply_mapping (new_mapping : Dict.t string) (updated_vtt : string) : string :=
  match new_mapping with
  | [] => updated_vtt
  | (placeholder, new_name) :: rest =>
      apply_mapping rest
        (Str.replace (token placeholder) (token new_name) updated_vtt)
  end.

(** [form] is what [request.form.items()] yields, in its order: one pair
    per field name of the submitted form. *)
Definition update_speakers (generated_files : gmap string job) (uid : string)
    (form : list (string * string)) : gmap string job * response :=
  match generated_files !! uid with
  | None => (generated_files, Text "Job not found" 404)
  | Some j =>
      let new_mapping := build_new_mapping form [] in
      let updated_vtt := apply_mapping new_mapping (job_vtt j) in
      (<[uid := set_vtt updated_vtt j]> generated_files,
       Template "final.html" None (Some uid) [])
  end.

(** ** [index] *)

Module Sorted.

(** [s.split(sep)] for a one-character separator. *)
Fixpoint split_on (sep : ascii) (s : string) : list string :=
  match s with
  | EmptyString => [EmptyString]
  | String c s' =>
      match split_on sep s' with
      | [] => [String c EmptyString]
      | h :: t => if Ascii.eqb c sep then EmptyString :: h :: t else String c h :: t
      end
  end.

Definition digit_val (c : ascii) : option Z :=
  let n := nat_of_ascii c in
  if ((48 <=? n) && (n <=? 57))%nat then Some (Z.of_nat n - 48) else None.

(** Decimal digits, single underscores allowed between two digits. *)
Fixpoint parse_digits (s : string) (acc : Z) (after_digit : bool) : option Z :=
  match s with
  | EmptyString => if after_digit then Some acc else None
  | String c s' =>
      match digit_val c with
      | Some d => parse_digits s' (10 * acc + d) true
      | None =>
          if Ascii.eqb c "_"%char && after_digit then parse_digits s' acc false
          else None
      end
  end.

(** [int(s)] for a string. *)
Definition int_of_string (s : string) : result Z :=
  let parsed :=
    match Str.strip s with
    | String "+"%char r => parse_digits r 0 false
    | String "-"%char r => option_map Z.opp (parse_digits r 0 false)
    | r => parse_digits r 0 false
    end in
  match parsed with
  | Some n => Ok n
  | None => Raise (ValueError "invalid literal for int() with base 10")
  end.

(** The sort key [lambda x: int(x.split('_')[1])]. *)
Definition number_of (x : string) : result Z :=
  match nth_error (split_on "_"%char x) 1 with
  | Some part => int_of_string part
  | None => Raise IndexError
  end.

Fixpoint keyed (xs : list string) : result (list (Z * string)) :=
  match xs with
  | [] => Ok []
  | x :: rest =>
      let! k := number_of x in
      let! krest := keyed rest in
      Ok ((k, x) :: krest)
  end.

(** Stable insertion: behind every element whose key is not larger. *)
Fixpoint insert (kx : Z * string) (sorted : list (Z * string)) : list (Z * string) :=
  match sorted with
  | [] => [kx]
  | ky :: rest => if fst kx <? fst ky then kx :: ky :: rest else ky :: insert kx rest
  end.

(** [sorted(xs, key=lambda x: int(x.split('_')[1]))] *)
Definition sorted_by_number (xs : list string) : result (list string) :=
  let! kxs := keyed xs in
  Ok (map snd (fold_left (fun acc kx => insert kx acc) kxs [])).

End Sorted.

(** A request to ["/"]: the method and, when [request.files] has the part
    ["video"], the file name of that part. *)
Record request : Type := {
  method : string;
  files_video : option string
}.

(** What the collaborators answer while one upload is processed.  The
    upload is taken to be saved and the transcoder to be started; an
    error of [file.save], or of [subprocess.run] other than a non-zero
    exit status, is outside the embedding. *)
Record collaborators : Type := {
  tempdir : string;                        (* tempfile.gettempdir() *)
  file_uuid : string;                      (* the uuid4 of the file name *)
  ffmpeg_ok : bool;                        (* subprocess.run did not fail *)
  HUGGINGFACE_TOKEN : option string;       (* os.getenv("HUGGINGFACE_TOKEN") *)
  diarized : option tracks;                (* None: the pipeline raised *)
  result_text : option string;             (* result.get("text") *)
  result_segments : option (list segment); (* result.get("segments") *)
  job_uuid : string                        (* the uuid4 of the job *)
}.

Definition index_page (error : option string) : response :=
  Template "index.html" error None [].

Definition index (generated_files : gmap string job) (req : request)
    (env : collaborators) : result (gmap string job * response) :=
  if String.eqb (method req) "POST" then
    match files_video req with
    | None => Ok (generated_files, index_page (Some "No file part in the request."))
    | Some filename =>
        if String.eqb filename "" then
          Ok (generated_files, index_page (Some "No file selected."))
        else
          let video_filename :=
            tempdir env ++ "/" ++ file_uuid env ++ "_" ++ filename in
          if negb (ffmpeg_ok env) then
            Ok (generated_files,
                index_page (Some
                  "Error processing the video file. Please ensure it is a valid video."))
          else
            match HUGGINGFACE_TOKEN env with
            | None | Some EmptyString =>
                Raise (ValueError "Hugging Face token not found!")
            | Some _ =>
                let diarization := diarized env in
                let transcript_text := default "" (result_text env) in
                let segments := default [] (result_segments env) in
                let! built := build_vtt diarization segments in
                let uid := job_uuid env in
                let generated_files' :=
                  <[uid := {| job_vtt := fst built;
                              job_transcript := transcript_text;
                              job_video_path := video_filename;
                              job_placeholder_map := snd built |}]> generated_files in
                let! placeholders := Sorted.sorted_by_number (Dict.values (snd built)) in
                Ok (generated_files', Template "edit.html" None (Some uid) placeholders)
            end
    end
  else Ok (generated_files, index_page None).

(** ** The files of an upload *)

Module Path.

(** The path cut behind its last ["/"]: the directory part, the separator
    included, and the base name. *)
Fixpoint split_last_sep (p : string) : string * string :=
  match p with
  | EmptyString => (EmptyString, EmptyString)
  | String c p' =>
      match split_last_sep p' with
      | (EmptyString, base) =>
          if Ascii.eqb c "/"%char then (String c EmptyString, base)
          else (EmptyString, String c base)
      | (dir, base) => (String c dir, base)
      end
  end.

(** The leading dots of a base name, and what follows them. *)
Fixpoint span_dots (b : string) : string * string :=
  match b with
  | String c b' =>
      if Ascii.eqb c "."%char
      then (String c (fst (span_dots b')), snd (span_dots b'))
      else (EmptyString, b)
  | EmptyString => (EmptyString, EmptyString)
  end.

(** The string cut in front of its last ["."], when it has one. *)
Fixpoint split_last_dot (s : string) : option (string * string) :=
  match s with
  | EmptyString => None
  | String c s' =>
      match split_last_dot s' with
      | Some (root, ext) => Some (String c root, ext)
      | None => if Ascii.eqb c "."%char then Some (EmptyString, s) else None
      end
  end.

(** [os.path.splitext(p)] on POSIX: the extension starts at the last dot
    of the base name, leading dots of the base name not counted. *)
Definition splitext (p : string) : string * string :=
  let '(dir, base) := split_last_sep p in
  let '(dots, rest) := span_dots base in
  match split_last_dot rest with
  | Some (root, ext) => (dir ++ dots ++ root, ext)
  | None => (p, EmptyString)
  end.

End Path.

(** What [index] does to the file system, in order: [file.save(path)],
    [subprocess.run(argv, check=True, ...)] and [os.remove(path)]. *)
Inductive file_op : Type :=
| Saved (path : string)
| Ran (argv : list string)
| Removed (path : string).

(** [os.path.join(tempfile.gettempdir(), f"{uuid.uuid4()}_{filename}")] *)
Definition video_filename_of (env : collaborators) (filename : string) : string :=
  tempdir env ++ "/" ++ file_uuid env ++ "_" ++ filename.

(** [os.path.splitext(video_filename)[0] + ".wav"] *)
Definition audio_filename_of (video_filename : string) : string :=
  fst (Path.splitext video_filename) ++ ".wav".

Definition ffmpeg_command (video_filename audio_filename : string) : list string :=
  [ "ffmpeg"; "-y"; "-i"; video_filename; "-ac"; "1"; "-ar"; "16000"; audio_filename ].

(** The file operations of one call of [index], along the same branches
    as [index]: steps 1 and 2, the removal of the upload when the
    transcoder fails, and step 6, reached when nothing was raised before. *)
Definition index_files (req : request) (env : collaborators) : list file_op :=
  if String.eqb (method req) "POST" then
    match files_video req with
    | None => []
    | Some filename =>
        if String.eqb filename "" then []
        else
          let video_filename := video_filename_of env filename in
          let audio_filename := audio_filename_of video_filename in
          [Saved video_filename; Ran (ffmpeg_command video_filename audio_filename)]
          ++ (if negb (ffmpeg_ok env) then [Removed video_filename]
              else
                match HUGGINGFACE_TOKEN env with
                | None | Some EmptyString => []
                | Some _ =>
                    match build_vtt (diarized env) (default [] (result_segments env)) with
                    | Ok _ => [Removed audio_filename]
                    | Raise _ => []
                    end
                end)
    end
  else [].

(** ** [index] step by step *)

(** The calls by which [index] reaches outside the handler:
    the file operations, [os.getenv(name)], the [try] block of step 3
    (the diarization pipeline made with the token and run on the audio
    file) and [model.transcribe(audio)]. *)
Inductive call : Type :=
| OnFiles (op : file_op)
| Getenv (name : string)
| Diarization (token audio : string)
| Transcription (audio : string).

(** The state a handler runs in: the table [generated_files] and the
    calls made so far. *)
Record world : Type := {
  jobs : gmap string job;
  calls : list call
}.

(** A stretch of the handler: from a state to the state it leaves and
    what it returns or raises there. *)
Definition step (A : Type) : Type := world -> world * result A.

Definition ret {A : Type} (a : A) : step A := fun w => (w, Ok a).

Definition raise {A : Type} (e : exn) : step A := fun w => (w, Raise e).

Definition lift {A : Type} (r : result A) : step A := fun w => (w, r).

Definition and_then {A B : Type} (m : step A) (k : A -> step B) : step B :=
  fun w =>
    match m w with
    | (w', Ok a) => k a w'
    | (w', Raise e) => (w', Raise e)
    end.

Notation "'run!' x ':=' m 'in' k" := (and_then m (fun x => k))
  (at level 10, x name, m at level 100, k at level 200).

Definition does (c : call) : step unit :=
  fun w => ({| jobs := jobs w; calls := calls w ++ [c] |}, Ok tt).

(** [generated_files[uid] = j] *)
Definition stores (uid : string) (j : job) : step unit :=
  fun w => ({| jobs := <[uid := j]> (jobs w); calls := calls w |}, Ok tt).

(** [index] with its effects in their order: the calls it makes and the
    assignment to [generated_files]. *)
Definition index_steps (req : request) (env : collaborators) : step response :=
  if String.eqb (method req) "POST" then
    match files_video req with
    | None => ret (index_page (Some "No file part in the request."))
    | Some filename =>
        if String.eqb filename "" then
          ret (index_page (Some "No file selected."))
        else
          let video_filename := video_filename_of env filename in
          run! _ := does (OnFiles (Saved video_filename)) in
          let audio_filename := audio_filename_of video_filename in
          run! _ := does (OnFiles (Ran (ffmpeg_command video_filename audio_filename))) in
          if negb (ffmpeg_ok env) then
            run! _ := does (OnFiles (Removed video_filename)) in
            ret (index_page (Some
                   "Error processing the video file. Please ensure it is a valid video."))
          else
            run! _ := does (Getenv "HUGGINGFACE_TOKEN") in
            match HUGGINGFACE_TOKEN env with
            | None | Some EmptyString =>
                raise (ValueError "Hugging Face token not found!")
            | Some token =>
                run! _ := does (Diarization token audio_filename) in
                let diarization := diarized env in
                run! _ := does (Transcription audio_filename) in
                let transcript_text := default "" (result_text env) in
                let segments := default [] (result_segments env) in
                run! built := lift (build_vtt diarization segments) in
                run! _ := does (OnFiles (Removed audio_filename)) in
                let uid := job_uuid env in
                run! _ := stores uid {| job_vtt := fst built;
                                        job_transcript := transcript_text;
                                        job_video_path := video_filename;
                                        job_placeholder_map := snd built |} in
                run! placeholders :=
                  lift (Sorted.sorted_by_number (Dict.values (snd built))) in
                ret (Template "edit.html" None (Some uid) placeholders)
            end
    end
  else ret (index_page None).

(** The file operations among the calls. *)
Fixpoint file_ops (cs : list call) : list file_op :=
  match cs with
  | [] => []
  | OnFiles op :: rest => op :: file_ops rest
  | _ :: rest => file_ops rest
  end.

(** ** Vocabulary of the statements *)

(** The speaker key attributed to a segment. *)
Definition speaker_of (d : option tracks) (sg : segment) : string :=
  get_speaker_for_segment d (seg_start sg) (seg_end sg).

(** The distinct keys of a sequence, each at its first occurrence. *)
Fixpoint first_seen (keys : list string) : list string :=
  match keys with
  | [] => []
  | k :: rest => k :: List.filter (fun x => negb (String.eqb x k)) (first_seen rest)
  end.

(** The keys of [segments] that [pm] does not hold yet, as first seen. *)
Definition fresh_keys (d : option tracks) (pm : Dict.t string)
    (segments : list segment) : list string :=
  List.filter (fun x => negb (Dict.mem x pm))
    (first_seen (map (speaker_of d) segments)).

(** The keys numbered [i], [i+1], ... in their order. *)
Fixpoint number_from (i : Z) (keys : list string) : Dict.t string :=
  match keys with
  | [] => []
  | k :: rest => (k, speaker_label i) :: number_from (i + 1) rest
  end.

(** The placeholder a mapping holds for a key. *)
Definition placeholder_in (pm : Dict.t string) (key : string) : string :=
  default "" (Dict.get key pm).

(** The three lines a segment adds to [vtt_lines] under a placeholder. *)
Definition tagged_lines (placeholder : string) (sg : segment) : list string :=
  [ format_timestamp (seg_start sg) ++ " --> " ++ format_timestamp (seg_end sg);
    "[" ++ placeholder ++ "] " ++ Str.strip (seg_text sg);
    "" ].

Definition cue_lines (pm : Dict.t string) (d : option tracks) (sg : segment)
    : list string :=
  tagged_lines (placeholder_in pm (speaker_of d sg)) sg.

(** A cue of the track grammar: timestamp line, tagged text line, blank
    line, each closed by a line feed. *)
Definition cue (pm : Dict.t string) (d : option tracks) (sg : segment) : string :=
  format_timestamp (seg_start sg) ++ " --> " ++ format_timestamp (seg_end sg)
    ++ Str.nl
    ++ "[" ++ placeholder_in pm (speaker_of d sg) ++ "] " ++ Str.strip (seg_text sg)
    ++ Str.nl
    ++ Str.nl.

(** The track of the grammar: header line, blank line, the cues. *)
Definition grammar_track (pm : Dict.t string) (d : option tracks)
    (segments : list segment) : string :=
  "WEBVTT" ++ Str.nl ++ Str.nl ++ String.concat "" (map (cue pm d) segments).

(** The midpoint of a segment as the source computes it: the sum of
    [start] and [end] rounded to a double, and halved. *)
Definition midpoint (start end_ : Q) : F64.t := F64.half (F64.add start end_).

(** [mid] lies in the closed interval of the turn; an infinite [mid]
    lies in none. *)
Definition inside (mid : F64.t) (t : turn) : Prop :=
  match mid with
  | F64.Finite m => (turn_start t <= m)%Q /\ (m <= turn_end t)%Q
  | F64.Infinity _ => False
  end.

(** The speaker the resolver is to return for the midpoint [mid]: the
    unknown sentinel without diarization or when no turn contains [mid],
    otherwise the label of the first turn of the enumeration that does. *)
Inductive resolves (mid : F64.t) : option tracks -> string -> Prop :=
| resolves_absent :
    resolves mid None "Unknown"
| resolves_nowhere (its : tracks) :
    Forall (fun it => ~ inside mid (fst (fst it))) its ->
    resolves mid (Some its) "Unknown"
| resolves_first (pre post : tracks) (t : turn) (name speaker : string) :
    Forall (fun it => ~ inside mid (fst (fst it))) pre ->
    inside mid t ->
    resolves mid (Some (pre ++ (t, name, speaker) :: post)%list) speaker.

(** The rename of the specification on the pairs in the order given:
    every occurrence of [[placeholder]] becomes [[newName]], the name
    trimmed; a pair with a blank name changes nothing. *)
Fixpoint rename_in_order (pairs : list (string * string)) (track : string) : string :=
  match pairs with
  | [] => track
  | (placeholder, newName) :: rest =>
      rename_in_order rest
        (if String.eqb (Str.strip newName) "" then track
         else Str.replace (token placeholder) (token (Str.strip newName)) track)
  end.

(** The same with the name put between the brackets as it was submitted. *)
Fixpoint rename_literal (pairs : list (string * string)) (track : string) : string :=
  match pairs with
  | [] => track
  | (placeholder, newName) :: rest =>
      rename_literal rest
        (if String.eqb (Str.strip newName) "" then track
         else Str.replace (token placeholder) (token newName) track)
  end.

(** No key occurs twice. *)
Fixpoint distinct_keys (keys : list string) : bool :=
  match keys with
  | [] => true
  | k :: rest => negb (existsb (String.eqb k) rest) && distinct_keys rest
  end.

(** The entries [new_mapping] gets from a form with distinct keys. *)
Definition effective (form : list (string * string)) : Dict.t string :=
  map (fun kv => (fst kv, new_name (fst kv) (snd kv))) form.

(** A mapping renames cleanly: no key and no new name holds a square
    bracket, and no new name is a key that the mapping renames to
    something else. *)
Definition clean_mapping (m : Dict.t string) : bool :=
  forallb (fun kn => Str.bracket_free (fst kn) && Str.bracket_free (snd kn)) m
  && forallb
       (fun kn' =>
          String.eqb (fst kn') (snd kn')
          || forallb (fun kn => negb (String.eqb (snd kn) (fst kn'))) m)
       m.

(** Among the bracketed tokens of [names], none occurs inside the token
    of another name. *)
Definition no_token_inside_another (names : list string) : bool :=
  forallb
    (fun p => forallb
       (fun q => String.eqb p q || negb (Str.contains (token p) (token q))) names)
    names.

(** The placeholders a run of step 5 gave out, in the order of the mapping. *)
Definition placeholders_of (r : result (string * Dict.t string)) : list string :=
  match r with
  | Ok (_, pm) => Dict.values pm
  | Raise _ => []
  end.

(** The number a string of digits denotes, read after the number [acc]. *)
Fixpoint digits_value (acc : Z) (s : string) : Z :=
  match s with
  | EmptyString => acc
  | String c s' => digits_value (10 * acc + (Z.of_nat (nat_of_ascii c) - 48)) s'
  end.

(** The track of job [uid] in the table a handler returned. *)
Definition track_after (r : gmap string job * response) (uid : string)
    : option string :=
  option_map job_vtt (fst r !! uid).

(** The speaker labels a diarization holds. *)
Definition labels_of (d : option tracks) : list string :=
  match d with
  | None => []
  | Some its => map snd its
  end.

(** The character [c] occurs in [s]. *)
Fixpoint occurs (c : ascii) (s : string) : bool :=
  match s with
  | EmptyString => false
  | String a s' => Ascii.eqb a c || occurs c s'
  end.

(** The name a cue tag carries once the pairs were applied, in their
    order, to a tag that read [label]. *)
Fixpoint rename_label (pairs : list (string * string)) (label : string) : string :=
  match pairs with
  | [] => label
  | (placeholder, newName) :: rest =>
      rename_label rest
        (if String.eqb label placeholder then new_name placeholder newName else label)
  end.

(** The mapping with each placeholder replaced by the name its tags carry. *)
Definition relabelled (pairs : list (string * string)) (pm : Dict.t string)
    : Dict.t string :=
  map (fun kv => (fst kv, rename_label pairs (snd kv))) pm.

(** The request does not get past steps 1 and 2 of [index]: it is no POST,
    has no part named video, has a part without file name, or the
    transcoder fails on it. *)
Definition rejected (req : request) (env : collaborators) : Prop :=
  method req <> "POST" \/ files_video req = None \/ files_video req = Some ""
  \/ ffmpeg_ok env = false.

(** ** Scenarios *)

Module Scenario.

(** Scenario A: one segment, no diarization. *)
Definition hello : segment :=
  {| seg_start := 0; seg_end := 2; seg_text := "hello" |}.

Definition track_A : string :=
  "WEBVTT" ++ Str.nl ++ Str.nl
    ++ "00:00:00.000 --> 00:00:02.000" ++ Str.nl
    ++ "[SPEAKER_01] hello" ++ Str.nl.

(** Scenario B: three segments whose midpoints fall into turns of the
    speakers A, B and A again. *)
Definition turns_ABA : tracks :=
  [ ({| turn_start := 0; turn_end := 10 |}, "t0", "A");
    ({| turn_start := 10; turn_end := 20 |}, "t1", "B");
    ({| turn_start := 20; turn_end := 30 |}, "t2", "A") ].

Definition segments_ABA : list segment :=
  [ {| seg_start := 1; seg_end := 3; seg_text := " one" |};
    {| seg_start := 11; seg_end := 13; seg_text := " two" |};
    {| seg_start := 21; seg_end := 23; seg_text := " three" |} ].

(** The track of these segments with the three cues tagged [a], [b], [c]. *)
Definition track_tagged (a b c : string) : string :=
  "WEBVTT" ++ Str.nl ++ Str.nl
    ++ "00:00:01.000 --> 00:00:03.000" ++ Str.nl
    ++ "[" ++ a ++ "] one" ++ Str.nl ++ Str.nl
    ++ "00:00:11.000 --> 00:00:13.000" ++ Str.nl
    ++ "[" ++ b ++ "] two" ++ Str.nl ++ Str.nl
    ++ "00:00:21.000 --> 00:00:23.000" ++ Str.nl
    ++ "[" ++ c ++ "] three" ++ Str.nl.

Definition track_ABA : string := track_tagged "SPEAKER_01" "SPEAKER_02" "SPEAKER_01".

(** [n] speakers, the i-th talking at second i and named by the digits
    of i, and [n] segments, the i-th at second i. *)
Definition crowd_turns (n : nat) : tracks :=
  map (fun i =>
         ({| turn_start := inject_Z (Z.of_nat i); turn_end := inject_Z (Z.of_nat i) |},
          "t", Fmt.digits (Z.of_nat i)))
      (seq 1 n).

Definition crowd_segments (n : nat) : list segment :=
  map (fun i =>
         {| seg_start := inject_Z (Z.of_nat i);
            seg_end := inject_Z (Z.of_nat i);
            seg_text := "" |})
      (seq 1 n).

(** A midpoint on the end of the first turn and on the start of the next. *)
Definition turns_touching : tracks :=
  [ ({| turn_start := 0; turn_end := 2 |}, "t0", "A");
    ({| turn_start := 2; turn_end := 5 |}, "t1", "B") ].

(** The doubles written 0.02, 0.03 and 0.04, and two turns that meet at
    0.03.  The sum of 0.02 and 0.04 is no double: it lies above twice
    0.03 by 2^-58 and is rounded to it. *)
Definition d_0_02 : Q := 5764607523034235 # 288230376151711744.
Definition d_0_03 : Q := 1080863910568919 # 36028797018963968.
Definition d_0_04 : Q := 5764607523034235 # 144115188075855872.

Definition turns_at_0_03 : tracks :=
  [ ({| turn_start := 0; turn_end := d_0_03 |}, "t0", "A");
    ({| turn_start := d_0_03; turn_end := 1 |}, "t1", "B") ].

(** A stored job, and the table that holds it under the id ["job-1"]. *)
Definition stored : job :=
  {| job_vtt := track_ABA;
     job_transcript := " one two three";
     job_video_path := "/tmp/3f2a_talk.mp4";
     job_placeholder_map := [("A", "SPEAKER_01"); ("B", "SPEAKER_02")] |}.

Definition table : gmap string job := <["job-1" := stored]> ∅.

(** The job after SPEAKER_01 was renamed to Alice: the name Alice is in
    the track and is no placeholder of the job. *)
Definition renamed : job := set_vtt (track_tagged "Alice" "SPEAKER_02" "Alice") stored.

Definition renamed_table : gmap string job := <["job-1" := renamed]> ∅.

(** An upload that passes the checks of steps 1 and 2, processed while
    the environment variable HUGGINGFACE_TOKEN is not set. *)
Definition upload : request :=
  {| method := "POST"; files_video := Some "talk.mp4" |}.

Definition without_token : collaborators :=
  {| tempdir := "/tmp";
     file_uuid := "3f2a";
     ffmpeg_ok := true;
     HUGGINGFACE_TOKEN := None;
     diarized := None;
     result_text := Some " hello";
     result_segments := Some [hello];
     job_uuid := "job-2" |}.

(** The same upload, token set, when the transcription finds no segment. *)
Definition silent : collaborators :=
  {| tempdir := "/tmp";
     file_uuid := "3f2a";
     ffmpeg_ok := true;
     HUGGINGFACE_TOKEN := Some "hf_token";
     diarized := Some turns_ABA;
     result_text := Some "";
     result_segments := Some [];
     job_uuid := "job-2" |}.

(** The same upload with the token set. *)
Definition with_token (token : string) : collaborators :=
  {| tempdir := "/tmp";
     file_uuid := "3f2a";
     ffmpeg_ok := true;
     HUGGINGFACE_TOKEN := Some token;
     diarized := None;
     result_text := Some " hello";
     result_segments := Some [hello];
     job_uuid := "job-2" |}.

End Scenario.

(** * Properties *)

(** ** Strings *)

Section StringFacts.

Lemma append_nil_r (s : string) : s ++ "" = s.
Proof. induction s as [|c s IH]; simpl; [reflexivity | now rewrite IH]. Qed.

Lemma append_assoc (a b c : string) : (a ++ b) ++ c = a ++ (b ++ c).
Proof. induction a as [|x a IH]; simpl; [reflexivity | now rewrite IH]. Qed.

Lemma length_append (a b : string) :
  String.length (a ++ b) = (String.length a + String.length b)%nat.
Proof. induction a as [|x a IH]; simpl; [reflexivity | now rewrite IH]. Qed.

Lemma prefix_cons (a b : ascii) (t s : string) :
  String.prefix (String a t) (String b s) = Ascii.eqb a b && String.prefix t s.
Proof.
  simpl. destruct (ascii_dec a b) as [->|Hne].
  - now rewrite Ascii.eqb_refl.
  - apply Ascii.eqb_neq in Hne. now rewrite Hne.
Qed.

Lemma prefix_split (t s : string) :
  String.prefix t s = true -> s = t ++ Str.drop (String.length t) s.
Proof.
  revert s. induction t as [|c t IH]; intros s H; [reflexivity|].
  destruct s as [|b s]; [discriminate|].
  rewrite prefix_cons in H. apply andb_prop in H as [Hc Ht].
  apply Ascii.eqb_eq in Hc as ->. simpl. f_equal. now apply IH.
Qed.

Lemma contains_cons (t : string) (c : ascii) (s : string) :
  Str.contains t (String c s) = String.prefix t (String c s) || Str.contains t s.
Proof. reflexivity. Qed.

(** *** [replace] *)

Lemma replace_token (k n s : string) :
  Str.replace (token k) (token n) s = Str.replace_from (token k) (token n) 0 s.
Proof. reflexivity. Qed.

Lemma replace_from_scan (old new : string) (c : ascii) (s : string) :
  Str.replace_from old new 0 (String c s) =
  if String.prefix old (String c s)
  then new ++ Str.replace_from old new (String.length old - 1) s
  else String c (Str.replace_from old new 0 s).
Proof. reflexivity. Qed.

Lemma replace_from_skip (old new : string) (k : nat) (c : ascii) (s : string) :
  Str.replace_from old new (S k) (String c s) = Str.replace_from old new k s.
Proof. reflexivity. Qed.

(** Replacing a string by itself changes nothing. *)
Lemma replace_from_same (old : string) (s : string) (k : nat) :
  old <> "" -> Str.replace_from old old k s = Str.drop k s.
Proof.
  intros Hold. revert k. induction s as [|c s IH]; intros k.
  - now destruct k.
  - destruct k as [|k]; [|rewrite replace_from_skip; apply IH].
    rewrite replace_from_scan.
    destruct (String.prefix old (String c s)) eqn:Hp.
    + rewrite IH. destruct old as [|a old]; [congruence|].
      apply prefix_split in Hp. simpl in Hp. injection Hp as -> Hs.
      simpl. rewrite Nat.sub_0_r. now f_equal.
    + rewrite IH. reflexivity.
Qed.

Lemma replace_same (k s : string) : Str.replace (token k) (token k) s = s.
Proof. rewrite replace_token. now rewrite replace_from_same. Qed.

(** Without an occurrence of [old] nothing is replaced. *)
Lemma replace_from_absent (old new s : string) :
  Str.contains old s = false -> Str.replace_from old new 0 s = s.
Proof.
  induction s as [|c s IH]; intros H; [reflexivity|].
  rewrite contains_cons in H. apply orb_false_iff in H as [Hp Hc].
  rewrite replace_from_scan, Hp. now rewrite IH.
Qed.

Lemma replace_absent (k n s : string) :
  Str.contains (token k) s = false -> Str.replace (token k) (token n) s = s.
Proof. intros H. rewrite replace_token. now apply replace_from_absent. Qed.

(** *** Bracketed tokens *)

Lemma bracket_free_cons (c : ascii) (s : string) :
  Str.bracket_free (String c s) = true ->
  c <> "["%char /\ c <> "]"%char /\ Str.bracket_free s = true.
Proof.
  simpl. intros H. apply andb_prop in H as [H Hs]. apply andb_prop in H as [Ho Hc].
  apply negb_true_iff in Ho, Hc. apply Ascii.eqb_neq in Ho, Hc. auto.
Qed.

Lemma bracket_free_no_open (s : string) :
  Str.bracket_free s = true -> Str.no_open s = true.
Proof.
  induction s as [|c s IH]; intros H; [reflexivity|].
  apply bracket_free_cons in H as (Ho & _ & Hs). simpl.
  apply Ascii.eqb_neq in Ho. rewrite Ho. simpl. now apply IH.
Qed.

Lemma no_open_append (a b : string) :
  Str.no_open (a ++ b) = Str.no_open a && Str.no_open b.
Proof.
  induction a as [|c a IH]; simpl; [reflexivity|].
  now rewrite IH, andb_assoc.
Qed.

Lemma name_close_no_open (k : string) :
  Str.bracket_free k = true -> Str.no_open (k ++ "]") = true.
Proof.
  intros H. rewrite no_open_append, (bracket_free_no_open _ H). reflexivity.
Qed.

(** A token does not start inside a stretch without opening bracket. *)
Lemma contains_skip_no_open (t a r : string) :
  Str.no_open a = true ->
  Str.contains (String "[" t) (a ++ r) = Str.contains (String "[" t) r.
Proof.
  induction a as [|c a IH]; intros H; [reflexivity|].
  simpl in H. apply andb_prop in H as [Hc Ha].
  simpl append. rewrite contains_cons, prefix_cons.
  apply negb_true_iff in Hc. rewrite Ascii.eqb_sym, Hc. simpl. now apply IH.
Qed.

(** Between brackets a name is read whole. *)
Lemma name_prefix_eq (k n r : string) :
  Str.bracket_free k = true -> Str.bracket_free n = true ->
  String.prefix (k ++ "]") (n ++ "]" ++ r) = true -> k = n.
Proof.
  revert n. induction k as [|a k IH]; intros n Hk Hn H.
  - destruct n as [|b n]; [reflexivity|].
    apply bracket_free_cons in Hn as (_ & Hb & _).
    simpl append in H. rewrite prefix_cons in H.
    apply andb_prop in H as [H _]. apply Ascii.eqb_eq in H. congruence.
  - apply bracket_free_cons in Hk as (_ & Ha & Hk).
    destruct n as [|b n]; simpl append in H; rewrite prefix_cons in H;
      apply andb_prop in H as [Hab H]; apply Ascii.eqb_eq in Hab.
    + congruence.
    + apply bracket_free_cons in Hn as (_ & _ & Hn).
      subst b. f_equal. now apply IH.
Qed.

Lemma token_unfold (k : string) : token k = String "[" (k ++ "]").
Proof. reflexivity. Qed.

Lemma contains_token_cross (k n r : string) :
  Str.bracket_free k = true -> Str.bracket_free n = true -> k <> n ->
  Str.contains (token k) (token n ++ r) = Str.contains (token k) r.
Proof.
  intros Hk Hn Hne. rewrite !token_unfold. simpl append.
  rewrite contains_cons, prefix_cons, Ascii.eqb_refl. simpl andb.
  rewrite append_assoc.
  destruct (String.prefix (k ++ "]") (n ++ "]" ++ r)) eqn:Hp.
  - exfalso. apply Hne. eapply name_prefix_eq; eauto.
  - rewrite orb_false_l, <- append_assoc.
    apply contains_skip_no_open. now apply name_close_no_open.
Qed.

(** What the rewritten text starts with, short of an opening bracket, the
    original started with. *)
Lemma prefix_replace_from (u k n s : string) :
  Str.no_open u = true ->
  String.prefix u (Str.replace_from (token k) (token n) 0 s) = true ->
  String.prefix u s = true.
Proof.
  intros Hu. revert u Hu. induction s as [|c s IH]; intros u Hu H; [exact H|].
  destruct u as [|a u]; [reflexivity|].
  simpl in Hu. apply andb_prop in Hu as [Ha Hu]. apply negb_true_iff in Ha.
  rewrite replace_from_scan in H.
  destruct (String.prefix (token k) (String c s)).
  - rewrite token_unfold in H. simpl append in H.
    rewrite prefix_cons, Ha in H. discriminate.
  - rewrite prefix_cons in H |- *. apply andb_prop in H as [-> H].
    simpl. now apply IH.
Qed.

(** After the replacement no token of the replaced name is left. *)
Lemma replace_from_removes (k n s : string) (j : nat) :
  Str.bracket_free k = true -> Str.bracket_free n = true -> k <> n ->
  Str.contains (token k) (Str.replace_from (token k) (token n) j s) = false.
Proof.
  intros Hk Hn Hne. revert j. induction s as [|c s IH]; intros j.
  - now destruct j.
  - destruct j as [|j]; [|rewrite replace_from_skip; apply IH].
    rewrite replace_from_scan.
    destruct (String.prefix (token k) (String c s)) eqn:Hp.
    + rewrite contains_token_cross by assumption. apply IH.
    + rewrite contains_cons, IH, orb_false_r.
      apply not_true_is_false. intros H.
      apply not_true_iff_false in Hp. apply Hp.
      rewrite token_unfold in H |- *.
      rewrite prefix_cons in H |- *. apply andb_prop in H as [-> H]. simpl.
      eapply prefix_replace_from; [|exact H]. now apply name_close_no_open.
Qed.

(** The replacement brings in no token of a name other than the new one. *)
Lemma replace_from_no_new_token (k' k n s : string) (j : nat) :
  Str.bracket_free k' = true -> Str.bracket_free n = true -> k' <> n ->
  Str.contains (token k') (Str.replace_from (token k) (token n) j s) = true ->
  Str.contains (token k') s = true.
Proof.
  intros Hk' Hn Hne. revert j. induction s as [|c s IH]; intros j H.
  - now destruct j.
  - rewrite contains_cons. apply orb_true_iff.
    destruct j as [|j]; [|right; rewrite replace_from_skip in H; eauto].
    rewrite replace_from_scan in H.
    destruct (String.prefix (token k) (String c s)).
    + rewrite contains_token_cross in H by assumption. right. eauto.
    + rewrite contains_cons in H. apply orb_true_iff in H as [H|H]; [left|right; eauto].
      rewrite token_unfold in H |- *.
      rewrite prefix_cons in H |- *. apply andb_prop in H as [-> H]. simpl.
      eapply prefix_replace_from; [|exact H]. now apply name_close_no_open.
Qed.

(** One bracketed name inside another is the same name. *)
Lemma contains_token_token (k n : string) :
  Str.bracket_free k = true -> Str.bracket_free n = true ->
  Str.contains (token k) (token n) = true -> k = n.
Proof.
  intros Hk Hn H. destruct (string_dec k n) as [|Hne]; [assumption|].
  rewrite <- (append_nil_r (token n)) in H.
  rewrite contains_token_cross in H by assumption.
  discriminate.
Qed.

End StringFacts.

(** ** Dictionaries *)

Section DictFacts.
Context {V : Type}.
Implicit Types (d : Dict.t V) (k : string) (v : V).

Lemma get_app k d1 d2 :
  Dict.get k (d1 ++ d2)%list =
  match Dict.get k d1 with Some v => Some v | None => Dict.get k d2 end.
Proof.
  induction d1 as [|[k' v'] d1 IH]; simpl; [reflexivity|].
  destruct (String.eqb k' k); [reflexivity | exact IH].
Qed.

Lemma get_app_Some k v d1 d2 :
  Dict.get k d1 = Some v -> Dict.get k (d1 ++ d2)%list = Some v.
Proof. intros H. now rewrite get_app, H. Qed.

Lemma mem_app k d1 d2 : Dict.mem k (d1 ++ d2)%list = Dict.mem k d1 || Dict.mem k d2.
Proof. unfold Dict.mem. rewrite get_app. now destruct (Dict.get k d1). Qed.

Lemma mem_singleton k k' v : Dict.mem k [(k', v)] = String.eqb k' k.
Proof. unfold Dict.mem. simpl. now destruct (String.eqb k' k). Qed.

Lemma mem_get k d : Dict.mem k d = true -> exists v, Dict.get k d = Some v.
Proof. unfold Dict.mem. destruct (Dict.get k d) as [v|]; [eauto | discriminate]. Qed.

Lemma mem_false_get k d : Dict.mem k d = false -> Dict.get k d = None.
Proof. unfold Dict.mem. now destruct (Dict.get k d). Qed.

(** Assigning to an absent key appends the entry. *)
Lemma setitem_absent k v d : Dict.get k d = None -> Dict.setitem k v d = (d ++ [(k, v)])%list.
Proof.
  induction d as [|[k' v'] d IH]; simpl; intros H; [reflexivity|].
  destruct (String.eqb k' k); [discriminate | now rewrite IH].
Qed.

Lemma mem_keys k d : Dict.mem k d = true <-> In k (Dict.keys d).
Proof.
  unfold Dict.mem. induction d as [|[k' v'] d IH]; simpl; [intuition discriminate|].
  destruct (String.eqb_spec k' k) as [->|Hne]; [intuition|].
  rewrite IH. intuition.
Qed.

End DictFacts.

(** ** The keys seen first *)

Section FirstSeen.

Lemma first_seen_In (x : string) (l : list string) : In x (first_seen l) <-> In x l.
Proof.
  induction l as [|k l IH]; simpl; [reflexivity|].
  rewrite filter_In, IH, negb_true_iff, String.eqb_neq.
  destruct (string_dec k x) as [->|Hne]; intuition congruence.
Qed.

Lemma first_seen_NoDup (l : list string) : List.NoDup (first_seen l).
Proof.
  induction l as [|k l IH]; simpl; constructor.
  - rewrite filter_In, negb_true_iff, String.eqb_neq. intuition.
  - now apply List.NoDup_filter.
Qed.

Lemma filter_filter_absorb {A : Type} (f g : A -> bool) (l : list A) :
  (forall x, f x = true -> g x = true) ->
  List.filter f (List.filter g l) = List.filter f l.
Proof.
  intros Hfg. induction l as [|a l IH]; simpl; [reflexivity|].
  destruct (g a) eqn:Hg; simpl.
  - now rewrite IH.
  - destruct (f a) eqn:Hf; [|exact IH].
    apply Hfg in Hf. congruence.
Qed.

Lemma filter_filter_and {A : Type} (f g : A -> bool) (l : list A) :
  List.filter f (List.filter g l) = List.filter (fun x => g x && f x) l.
Proof.
  induction l as [|a l IH]; simpl; [reflexivity|].
  destruct (g a); simpl; [destruct (f a)|]; now rewrite IH.
Qed.

Lemma filter_all {A : Type} (f : A -> bool) (l : list A) :
  (forall x, f x = true) -> List.filter f l = l.
Proof.
  intros H. induction l as [|a l IH]; simpl; [reflexivity|]. now rewrite H, IH.
Qed.

Lemma number_from_keys (i : Z) (ks : list string) :
  Dict.keys (number_from i ks) = ks.
Proof. revert i. induction ks as [|k ks IH]; intros i; simpl; [|rewrite IH]; reflexivity. Qed.

Lemma number_from_values (i : nat) (ks : list string) :
  Dict.values (number_from (Z.of_nat i) ks) =
  map (fun n => speaker_label (Z.of_nat n)) (seq i (List.length ks)).
Proof.
  revert i. induction ks as [|k ks IH]; intros i; [reflexivity|].
  cbn [number_from List.length seq map Dict.values fst snd]. f_equal.
  replace (Z.of_nat i + 1) with (Z.of_nat (S i)) by lia. apply IH.
Qed.

End FirstSeen.

(** ** The loop of step 5 *)

Section BuildLoop.
Variable d : option tracks.

(** A segment whose speaker has a placeholder: the mapping is kept. *)
Lemma build_step_known (st : build_state) (sg : segment) (p : string) :
  Dict.get (speaker_of d sg) (placeholder_map st) = Some p ->
  build_step d st sg =
  Ok {| vtt_lines := vtt_lines st ++ tagged_lines p sg;
        placeholder_map := placeholder_map st;
        counter := counter st |}.
Proof.
  intros Hp. unfold build_step. fold (speaker_of d sg).
  unfold Dict.mem. rewrite Hp. cbv beta iota zeta. unfold negb.
  unfold Dict.getitem. rewrite Hp. reflexivity.
Qed.

(** A segment whose speaker is new: the next number is given out. *)
Lemma build_step_new (st : build_state) (sg : segment) :
  Dict.get (speaker_of d sg) (placeholder_map st) = None ->
  build_step d st sg =
  Ok {| vtt_lines := vtt_lines st ++ tagged_lines (speaker_label (counter st)) sg;
        placeholder_map :=
          placeholder_map st ++ [(speaker_of d sg, speaker_label (counter st))];
        counter := counter st + 1 |}.
Proof.
  intros Hp. unfold build_step. fold (speaker_of d sg).
  unfold Dict.mem. rewrite Hp. cbv beta iota zeta. unfold negb.
  rewrite (setitem_absent _ _ _ Hp).
  unfold Dict.getitem. rewrite get_app, Hp. cbn [Dict.get].
  rewrite String.eqb_refl. reflexivity.
Qed.

Lemma fresh_keys_known (pm : Dict.t string) (sg : segment) (rest : list segment) :
  Dict.mem (speaker_of d sg) pm = true ->
  fresh_keys d pm (sg :: rest) = fresh_keys d pm rest.
Proof.
  intros Hmem. unfold fresh_keys. cbn [map first_seen List.filter].
  rewrite Hmem. cbn [negb].
  apply filter_filter_absorb. intros x Hx.
  apply negb_true_iff in Hx. apply negb_true_iff. apply String.eqb_neq.
  intros ->. congruence.
Qed.

Lemma fresh_keys_new (pm : Dict.t string) (sg : segment) (rest : list segment)
    (p : string) :
  Dict.mem (speaker_of d sg) pm = false ->
  fresh_keys d pm (sg :: rest) =
  speaker_of d sg :: fresh_keys d (pm ++ [(speaker_of d sg, p)])%list rest.
Proof.
  intros Hmem. unfold fresh_keys. cbn [map first_seen List.filter].
  rewrite Hmem. cbn [negb]. f_equal.
  rewrite filter_filter_and. apply filter_ext. intros x.
  rewrite mem_app, mem_singleton, (String.eqb_sym (speaker_of d sg) x).
  destruct (Dict.mem x pm); destruct (String.eqb x (speaker_of d sg)); reflexivity.
Qed.

(** The loop never raises; it appends to the mapping the keys it meets
    for the first time, numbered from the counter on, and to the lines
    the three lines of every segment, tagged with the mapping's entry. *)
Lemma build_loop_spec (segments : list segment) (st : build_state) :
  exists st',
    build_loop d segments st = Ok st' /\
    placeholder_map st' =
      (placeholder_map st
         ++ number_from (counter st) (fresh_keys d (placeholder_map st) segments))%list /\
    counter st' =
      counter st + Z.of_nat (List.length (fresh_keys d (placeholder_map st) segments)) /\
    vtt_lines st' =
      (vtt_lines st ++ flat_map (cue_lines (placeholder_map st') d) segments)%list /\
    Forall (fun sg => Dict.mem (speaker_of d sg) (placeholder_map st') = true) segments.
Proof.
  revert st. induction segments as [|sg rest IH]; intros st.
  - exists st. unfold fresh_keys. cbn. rewrite !app_nil_r, Z.add_0_r. auto.
  - cbn [build_loop].
    destruct (Dict.mem (speaker_of d sg) (placeholder_map st)) eqn:Hmem.
    + destruct (mem_get _ _ Hmem) as [p Hp].
      rewrite (build_step_known _ _ _ Hp). cbn [bind].
      match goal with |- context [build_loop d rest ?s] =>
        destruct (IH s) as (st' & Hrun & Hpm & Hcnt & Hlines & Hall) end.
      cbn [placeholder_map counter vtt_lines] in Hpm, Hcnt, Hlines.
      exists st'. rewrite (fresh_keys_known _ _ _ Hmem).
      repeat split; try assumption.
      * rewrite Hlines, <- app_assoc. cbn [flat_map]. do 2 f_equal.
        unfold cue_lines, placeholder_in.
        now rewrite Hpm, (get_app_Some _ _ _ _ Hp).
      * constructor; [|assumption]. now rewrite Hpm, mem_app, Hmem.
    + pose proof (mem_false_get _ _ Hmem) as Hnone.
      rewrite (build_step_new _ _ Hnone). cbn [bind].
      match goal with |- context [build_loop d rest ?s] =>
        destruct (IH s) as (st' & Hrun & Hpm & Hcnt & Hlines & Hall) end.
      cbn [placeholder_map counter vtt_lines] in Hpm, Hcnt, Hlines.
      assert (Hget : Dict.get (speaker_of d sg) (placeholder_map st')
                     = Some (speaker_label (counter st))).
      { rewrite Hpm. apply get_app_Some. rewrite get_app, Hnone. cbn [Dict.get].
        now rewrite String.eqb_refl. }
      exists st'. rewrite (fresh_keys_new _ _ _ (speaker_label (counter st)) Hmem).
      cbn [number_from List.length].
      repeat split; try assumption.
      * rewrite Hpm, <- app_assoc. reflexivity.
      * rewrite Hcnt. lia.
      * rewrite Hlines, <- app_assoc. cbn [flat_map]. do 2 f_equal.
        unfold cue_lines, placeholder_in. now rewrite Hget.
      * constructor; [|assumption]. unfold Dict.mem. now rewrite Hget.
Qed.

End BuildLoop.

(** ** The track and the placeholder mapping *)

Section Track.

Lemma concat_empty_cons (x : string) (xs : list string) :
  String.concat "" (x :: xs) = x ++ String.concat "" xs.
Proof. destruct xs; cbn [String.concat]; [now rewrite append_nil_r | reflexivity]. Qed.

Lemma concat_empty_app (l1 l2 : list string) :
  String.concat "" (l1 ++ l2) = String.concat "" l1 ++ String.concat "" l2.
Proof.
  induction l1 as [|x l1 IH]; [reflexivity|].
  rewrite <- app_comm_cons, !concat_empty_cons, IH. now rewrite append_assoc.
Qed.

(** Joining lines with line feeds and closing the last line is closing
    every line. *)
Lemma join_lines_closed (ls : list string) :
  ls <> [] ->
  String.concat Str.nl ls ++ Str.nl = String.concat "" (map (fun l => l ++ Str.nl) ls).
Proof.
  induction ls as [|x ls IH]; intros Hne; [congruence|].
  destruct ls as [|y ls]; [reflexivity|].
  change (String.concat Str.nl (x :: y :: ls))
    with (x ++ Str.nl ++ String.concat Str.nl (y :: ls)).
  rewrite map_cons, concat_empty_cons, <- IH by discriminate.
  now rewrite !append_assoc.
Qed.

Lemma cues_closed (pm : Dict.t string) (d : option tracks) (segments : list segment) :
  String.concat "" (map (fun l => l ++ Str.nl) (flat_map (cue_lines pm d) segments))
  = String.concat "" (map (cue pm d) segments).
Proof.
  induction segments as [|sg rest IH]; [reflexivity|].
  cbn [flat_map]. rewrite map_app, concat_empty_app, IH, map_cons, concat_empty_cons.
  f_equal. unfold cue_lines, tagged_lines, cue.
  cbn [map]. rewrite !concat_empty_cons. cbn [String.concat].
  now rewrite !append_assoc, append_nil_r.
Qed.

Lemma build_loop_app (d : option tracks) (pre post : list segment) (st : build_state) :
  build_loop d (pre ++ post) st =
  (let! st1 := build_loop d pre st in build_loop d post st1).
Proof.
  revert st. induction pre as [|sg pre IH]; intros st; [reflexivity|].
  cbn [app build_loop]. destruct (build_step d st sg); cbn [bind]; [apply IH | reflexivity].
Qed.

Lemma fresh_keys_init (d : option tracks) (segments : list segment) :
  fresh_keys d [] segments = first_seen (map (speaker_of d) segments).
Proof. unfold fresh_keys. now apply filter_all. Qed.

(** What [build_vtt] returns. *)
Lemma build_vtt_spec (d : option tracks) (segments : list segment) :
  exists vtt pm,
    build_vtt d segments = Ok (vtt, pm) /\
    pm = number_from 1 (first_seen (map (speaker_of d) segments)) /\
    Forall (fun sg => Dict.mem (speaker_of d sg) pm = true) segments /\
    vtt ++ Str.nl = grammar_track pm d segments.
Proof.
  destruct (build_loop_spec d segments build_init)
    as (st' & Hrun & Hpm & _ & Hlines & Hall).
  cbn [build_init placeholder_map counter vtt_lines] in Hpm, Hlines.
  rewrite fresh_keys_init in Hpm. cbn [app] in Hpm.
  exists (String.concat Str.nl (vtt_lines st')), (placeholder_map st').
  unfold build_vtt. rewrite Hrun. cbn [bind].
  repeat split; try assumption.
  rewrite Hlines, join_lines_closed by discriminate.
  cbn [app map]. rewrite !concat_empty_cons, cues_closed. reflexivity.
Qed.

End Track.

(** C1 (as amended).  For every job the track is the one of the grammar
    -- the header line [WEBVTT], a blank line, then per input segment, in
    input order, the timestamp line, the line [[placeholder] trimmed text]
    and a blank line, a segment with empty text included -- short of its
    very last line feed: [build_vtt] never raises, every segment's speaker
    is in the mapping, and the track followed by one line feed is the text
    of the grammar.  For the single segment (0, 2, "hello") without
    diarization the track ends after [[SPEAKER_01] hello] and one line feed. *)
Theorem build_vtt_track :
  (forall (d : option tracks) (segments : list segment),
     exists vtt pm,
       build_vtt d segments = Ok (vtt, pm) /\
       Forall (fun sg => Dict.mem (speaker_of d sg) pm = true) segments /\
       vtt ++ Str.nl = grammar_track pm d segments) /\
  build_vtt None [Scenario.hello] = Ok (Scenario.track_A, [("Unknown", "SPEAKER_01")]).
Proof.
  split; [|vm_compute; reflexivity].
  intros d segments.
  destruct (build_vtt_spec d segments) as (vtt & pm & Hrun & _ & Hall & Htrack).
  exists vtt, pm. auto.
Qed.

(** C1, counterexample.  For the single segment (0, 2, "hello") the track
    is not the claimed string: it ends with one line feed, the claimed one
    with two. *)
Lemma build_vtt_one_trailing_newline :
  build_vtt None [Scenario.hello] = Ok (Scenario.track_A, [("Unknown", "SPEAKER_01")]) /\
  String.eqb Scenario.track_A
    ("WEBVTT" ++ Str.nl ++ Str.nl
       ++ "00:00:00.000 --> 00:00:02.000" ++ Str.nl
       ++ "[SPEAKER_01] hello" ++ Str.nl ++ Str.nl) = false.
Proof. split; vm_compute; reflexivity. Qed.

(** C2.  After all segments the mapping's keys are the distinct speaker
    keys in the order of their first segment, its values are SPEAKER_
    with the numbers 1..k in that order (k the number of distinct keys),
    the first segment's speaker has SPEAKER_01, every cue is tagged with
    the mapping's entry of its speaker, and the mapping after any prefix
    of the segments is a prefix of the final one: entries are added, none
    is changed.  Speakers A, B, A give {A: SPEAKER_01, B: SPEAKER_02} and
    a third cue tagged SPEAKER_01. *)
Theorem placeholder_map_numbering :
  (forall (d : option tracks) (pre post : list segment),
     let segments := (pre ++ post)%list in
     let keys := first_seen (map (speaker_of d) segments) in
     exists vtt pm vtt1 pm1 later,
       build_vtt d segments = Ok (vtt, pm) /\
       Dict.keys pm = keys /\
       Dict.values pm =
         map (fun n => speaker_label (Z.of_nat n)) (seq 1 (List.length keys)) /\
       List.NoDup keys /\
       (forall x, In x keys <-> In x (map (speaker_of d) segments)) /\
       match segments with
       | [] => pm = []
       | sg :: _ => Dict.get (speaker_of d sg) pm = Some "SPEAKER_01"
       end /\
       vtt ++ Str.nl = grammar_track pm d segments /\
       build_vtt d pre = Ok (vtt1, pm1) /\
       pm = (pm1 ++ later)%list) /\
  build_vtt (Some Scenario.turns_ABA) Scenario.segments_ABA =
    Ok (Scenario.track_ABA, [("A", "SPEAKER_01"); ("B", "SPEAKER_02")]).
Proof.
  split; [|vm_compute; reflexivity].
  intros d pre post segments keys.
  destruct (build_vtt_spec d segments) as (vtt & pm & Hrun & Hpm & _ & Htrack).
  fold keys in Hpm.
  (* the run over the prefix, and the rest of the run from its state *)
  destruct (build_loop_spec d pre build_init) as (st1 & Hrun1 & _).
  destruct (build_loop_spec d post st1) as (st2 & Hrun2 & Hpm2 & _).
  assert (Hpm12 : pm = placeholder_map st2).
  { unfold build_vtt in Hrun. subst segments.
    rewrite build_loop_app, Hrun1 in Hrun. cbn [bind] in Hrun.
    rewrite Hrun2 in Hrun. cbn [bind] in Hrun. congruence. }
  exists vtt, pm, (String.concat Str.nl (vtt_lines st1)), (placeholder_map st1),
    (number_from (counter st1) (fresh_keys d (placeholder_map st1) post)).
  repeat split.
  - exact Hrun.
  - rewrite Hpm. apply number_from_keys.
  - rewrite Hpm. apply (number_from_values 1).
  - apply first_seen_NoDup.
  - apply first_seen_In.
  - apply first_seen_In.
  - rewrite Hpm. unfold keys. destruct segments as [|sg rest]; [reflexivity|].
    cbn [map first_seen number_from Dict.get]. now rewrite String.eqb_refl.
  - exact Htrack.
  - unfold build_vtt. now rewrite Hrun1.
  - now rewrite Hpm12.
Qed.

(** ** The speaker of a segment *)

Section Resolver.

Lemma in_turn_inside (t : turn) (mid : F64.t) : in_turn t mid = true <-> inside mid t.
Proof.
  unfold in_turn, inside. destruct mid as [m|[|]]; cbn [F64.leb].
  - rewrite andb_true_iff, !Qle_bool_iff. reflexivity.
  - rewrite andb_false_l. split; [discriminate | contradiction].
  - rewrite andb_false_r. split; [discriminate | contradiction].
Qed.

Lemma resolves_skip (mid : F64.t) (its : tracks) (r : string)
    (t : turn) (name speaker : string) :
  ~ inside mid t ->
  resolves mid (Some its) r ->
  resolves mid (Some ((t, name, speaker) :: its)) r.
Proof.
  intros Hout H.
  inversion H as [|its' Hall|pre post t' name' speaker' Hpre Ht']; subst.
  - apply resolves_nowhere. now constructor.
  - apply (resolves_first mid ((t, name, speaker) :: pre) post t' name' r);
      [now constructor | assumption].
Qed.

Lemma scan_tracks_resolves (its : tracks) (mid : F64.t) :
  resolves mid (Some its) (scan_tracks its mid).
Proof.
  induction its as [|[[t name] speaker] its IH].
  - apply resolves_nowhere. constructor.
  - cbn [scan_tracks]. destruct (in_turn t mid) eqn:Hin.
    + apply (resolves_first mid [] its t name speaker); [constructor|].
      now apply in_turn_inside.
    + apply resolves_skip; [|exact IH].
      rewrite <- in_turn_inside. congruence.
Qed.

Lemma scan_tracks_nowhere (its : tracks) (mid : F64.t) :
  Forall (fun it => ~ inside mid (fst (fst it))) its ->
  scan_tracks its mid = "Unknown".
Proof.
  induction 1 as [|[[t name] speaker] its Hout _ IH]; [reflexivity|].
  cbn [scan_tracks]. destruct (in_turn t mid) eqn:Hin; [|exact IH].
  apply in_turn_inside in Hin. contradiction.
Qed.

Lemma scan_tracks_first (pre post : tracks) (t : turn) (name speaker : string)
    (mid : F64.t) :
  Forall (fun it => ~ inside mid (fst (fst it))) pre ->
  inside mid t ->
  scan_tracks (pre ++ (t, name, speaker) :: post) mid = speaker.
Proof.
  intros Hpre Ht. induction Hpre as [|[[u name'] speaker'] pre Hout _ IH].
  - cbn [app scan_tracks]. apply in_turn_inside in Ht. now rewrite Ht.
  - cbn [app scan_tracks]. destruct (in_turn u mid) eqn:Hin; [|exact IH].
    apply in_turn_inside in Hin. contradiction.
Qed.

(** The resolution is a function of the turns and the midpoint: the one
    the resolver computes. *)
Lemma resolves_functional (d : option tracks) (r : string) (start end_ : Q) :
  resolves (midpoint start end_) d r -> get_speaker_for_segment d start end_ = r.
Proof.
  intros H. unfold get_speaker_for_segment.
  destruct H as [|its Hall|pre post t name speaker Hpre Ht].
  - reflexivity.
  - now apply scan_tracks_nowhere.
  - now apply scan_tracks_first.
Qed.

End Resolver.

(** C4.  For every segment interval and every diarization the resolver
    returns what [resolves] prescribes for mid = (start + end) / 2, the
    value the source computes in double precision: the unknown sentinel
    when diarization is absent or no turn contains mid, otherwise the
    speaker of the first turn, in enumeration order, whose closed
    interval [turn.start, turn.end] contains mid -- so a midpoint equal
    to turn.end belongs to that turn.  In the second part the midpoint 2
    of (1, 3) ends one turn and starts the next; in the third the
    midpoint of (0.02, 0.04) is the double 0.03, where the first turn
    ends, and the sum was rounded to get there. *)
Theorem get_speaker_for_segment_first_turn :
  (forall (d : option tracks) (start end_ : Q) (r : string),
     resolves (midpoint start end_) d r <-> get_speaker_for_segment d start end_ = r) /\
  get_speaker_for_segment (Some Scenario.turns_touching) 1 3 = "A" /\
  (F64.leb (midpoint Scenario.d_0_02 Scenario.d_0_04) (F64.Finite Scenario.d_0_03)
   && F64.leb (F64.Finite Scenario.d_0_03) (midpoint Scenario.d_0_02 Scenario.d_0_04)
   && negb (Qle_bool ((Scenario.d_0_02 + Scenario.d_0_04) / 2) Scenario.d_0_03) = true /\
   get_speaker_for_segment (Some Scenario.turns_at_0_03) Scenario.d_0_02 Scenario.d_0_04
   = "A").
Proof.
  split; [|repeat split; vm_compute; reflexivity].
  intros d start end_ r. split; [apply resolves_functional|].
  intros <-. destruct d as [its|]; unfold get_speaker_for_segment.
  - apply scan_tracks_resolves.
  - constructor.
Qed.

(** C5, at the failing input.  The two values of the specification are
    formatted as it says, but for 59.99951171875 seconds (122879/2048)
    the remainder of the division by 60 is rounded to three decimals and
    the seconds field reads 60.000. *)
Theorem format_timestamp_seconds_field_60 :
  format_timestamp 0 = "00:00:00.000" /\
  format_timestamp 3661.25 = "01:01:01.250" /\
  format_timestamp (122879 # 2048) = "00:00:60.000".
Proof. repeat split; vm_compute; reflexivity. Qed.

(** ** Requests for unknown jobs and unknown kinds *)

(** C7 (as amended).  For a job id that is not in the table, [download]
    and [update_speakers] answer not found (404), raise nothing and leave
    the table as it is.  For a stored job, [download] answers not found
    when the request names no kind or a kind that is not a key of the
    stored job; the kinds vtt and transcript are served as subtitles.vtt
    and transcript.txt, and the key video_path is served too, as file.txt.
    (Nothing is said here about the fourth key, placeholder_map.) *)
Theorem download_not_found (generated_files : gmap string job) (uid : string)
    (file_type : option string) (form : list (string * string)) :
  match generated_files !! uid with
  | None =>
      download generated_files uid file_type = Ok (Text "Requested file not found." 404)
      /\ update_speakers generated_files uid form
         = (generated_files, Text "Job not found" 404)
  | Some j =>
      match file_type with
      | None =>
          download generated_files uid file_type
          = Ok (Text "Requested file not found." 404)
      | Some kind =>
          if String.eqb kind "vtt" then
            download generated_files uid file_type
            = Ok (SendFile (job_vtt j) "subtitles.vtt" "text/vtt")
          else if String.eqb kind "transcript" then
            download generated_files uid file_type
            = Ok (SendFile (job_transcript j) "transcript.txt" "text/plain")
          else if String.eqb kind "video_path" then
            download generated_files uid file_type
            = Ok (SendFile (job_video_path j) "file.txt" "text/plain")
          else if String.eqb kind "placeholder_map" then True
          else
            download generated_files uid file_type
            = Ok (Text "Requested file not found." 404)
      end
  end.
Proof.
  unfold download, update_speakers.
  destruct (generated_files !! uid) as [j|]; [|split; reflexivity].
  destruct file_type as [kind|]; [|reflexivity].
  destruct (String.eqb_spec kind "vtt") as [->|H1]; [reflexivity|].
  destruct (String.eqb_spec kind "transcript") as [->|H2]; [reflexivity|].
  destruct (String.eqb_spec kind "video_path") as [->|H3]; [reflexivity|].
  destruct (String.eqb_spec kind "placeholder_map") as [->|H4]; [exact I|].
  unfold Dict.mem, job_items. cbn [Dict.get].
  rewrite !(String.eqb_sym _ kind).
  apply String.eqb_neq in H1, H2, H3, H4. now rewrite H1, H2, H3, H4.
Qed.

(** C7, counterexample.  For a stored job the kind video_path is neither
    track nor transcript, and the answer is not a not-found error: the
    path of the stored video is sent as file.txt. *)
Lemma download_video_path_is_served :
  download Scenario.table "job-1" (Some "video_path")
  = Ok (SendFile "/tmp/3f2a_talk.mp4" "file.txt" "text/plain").
Proof. vm_compute. reflexivity. Qed.

(** ** The Hugging Face token *)

(** [index] returns or raises what its steps do, and its table is the
    one they leave; the file operations are those among their calls. *)
Lemma index_steps_index (req : request) (env : collaborators) (w : world) :
  match index_steps req env w with
  | (w', Ok response) => index (jobs w) req env = Ok (jobs w', response)
  | (w', Raise e) => index (jobs w) req env = Raise e
  end /\
  file_ops (calls (fst (index_steps req env w)))
  = (file_ops (calls w) ++ index_files req env)%list.
Proof.
  assert (Hops : forall (a b : list call), file_ops (a ++ b) = (file_ops a ++ file_ops b)%list).
  { intros a b. induction a as [|[op| | |] a IH]; cbn [app file_ops]; congruence. }
  unfold index_steps, index, index_files, video_filename_of.
  destruct (String.eqb (method req) "POST"); [|cbn; now rewrite app_nil_r].
  destruct (files_video req) as [filename|]; [|cbn; now rewrite app_nil_r].
  destruct (String.eqb filename ""); [cbn; now rewrite app_nil_r|].
  destruct (ffmpeg_ok env); cbn [negb].
  2: { cbn. split; [reflexivity|]. rewrite !Hops. cbn. now rewrite <- !app_assoc. }
  destruct (HUGGINGFACE_TOKEN env) as [[|c token]|].
  - cbn. split; [reflexivity|]. rewrite !Hops. cbn. now rewrite <- !app_assoc, app_nil_r.
  - unfold and_then, does, lift, stores, ret. cbn [jobs calls fst].
    destruct (build_vtt (diarized env) (default [] (result_segments env)))
      as [built|e]; cbn [bind jobs calls fst].
    + destruct (Sorted.sorted_by_number (Dict.values (snd built)));
        cbn [bind jobs calls fst];
        (split; [reflexivity|]); rewrite !Hops; cbn; now rewrite <- !app_assoc, ?app_nil_r.
    + split; [reflexivity|]. rewrite !Hops. cbn. now rewrite <- !app_assoc, ?app_nil_r.
  - cbn. split; [reflexivity|]. rewrite !Hops. cbn. now rewrite <- !app_assoc, app_nil_r.
Qed.

(** C9 (as amended).  The token is read while an upload is processed,
    after the file has been accepted and transcoded: every such upload
    made while the token is unset or empty ends in the ValueError.  By
    then the upload was saved, the transcoder was run and the variable
    was read, and nothing else was done: the exception comes before
    diarization and transcription are called, and the table is as it was
    before the request, no job stored. *)
Theorem index_without_token (generated_files : gmap string job) (req : request)
    (env : collaborators) (filename : string) :
  method req = "POST" ->
  files_video req = Some filename ->
  filename <> "" ->
  ffmpeg_ok env = true ->
  HUGGINGFACE_TOKEN env = None \/ HUGGINGFACE_TOKEN env = Some "" ->
  index generated_files req env = Raise (ValueError "Hugging Face token not found!") /\
  index_steps req env {| jobs := generated_files; calls := [] |}
  = ({| jobs := generated_files;
        calls := [ OnFiles (Saved (video_filename_of env filename));
                   OnFiles (Ran (ffmpeg_command (video_filename_of env filename)
                                   (audio_filename_of (video_filename_of env filename))));
                   Getenv "HUGGINGFACE_TOKEN" ] |},
     Raise (ValueError "Hugging Face token not found!")).
Proof.
  intros Hm Hf Hname Hff Htok. unfold index, index_steps.
  rewrite Hm, Hf, Hff, String.eqb_refl. cbn [negb].
  apply String.eqb_neq in Hname. rewrite Hname.
  now destruct Htok as [-> | ->].
Qed.

Lemma index_without_token_witness :
  method Scenario.upload = "POST" /\
  files_video Scenario.upload = Some "talk.mp4" /\
  "talk.mp4" <> "" /\
  ffmpeg_ok Scenario.without_token = true /\
  (HUGGINGFACE_TOKEN Scenario.without_token = None
   \/ HUGGINGFACE_TOKEN Scenario.without_token = Some "") /\
  index ∅ Scenario.upload Scenario.without_token
  = Raise (ValueError "Hugging Face token not found!") /\
  index_steps Scenario.upload Scenario.without_token {| jobs := ∅; calls := [] |}
  = ({| jobs := ∅;
        calls := [ OnFiles (Saved "/tmp/3f2a_talk.mp4");
                   OnFiles (Ran (ffmpeg_command "/tmp/3f2a_talk.mp4" "/tmp/3f2a_talk.wav"));
                   Getenv "HUGGINGFACE_TOKEN" ] |},
     Raise (ValueError "Hugging Face token not found!")).
Proof.
  split; [reflexivity|]. split; [reflexivity|]. split; [discriminate|].
  split; [reflexivity|]. split; [left; reflexivity|].
  exact (index_without_token ∅ Scenario.upload Scenario.without_token "talk.mp4"
           eq_refl eq_refl ltac:(discriminate) eq_refl (or_introl eq_refl)).
Defined.

(** C9, counterexample.  An upload that was accepted and transcoded fails
    because the token is not set. *)
Lemma index_fails_per_request :
  index ∅ Scenario.upload Scenario.without_token
  = Raise (ValueError "Hugging Face token not found!").
Proof. vm_compute. reflexivity. Qed.

(** ** Renaming *)

Section Rename.

Lemma existsb_eqb_In (k : string) (l : list string) :
  existsb (String.eqb k) l = true <-> In k l.
Proof.
  rewrite existsb_exists. split.
  - intros (x & Hx & He). apply String.eqb_eq in He. now subst.
  - intros H. exists k. now rewrite String.eqb_refl.
Qed.

Lemma get_not_in_keys {V : Type} (k : string) (d : Dict.t V) :
  ~ In k (Dict.keys d) -> Dict.get k d = None.
Proof.
  intros H. destruct (Dict.get k d) eqn:Hg; [|reflexivity].
  exfalso. apply H, mem_keys. unfold Dict.mem. now rewrite Hg.
Qed.

(** With distinct keys [new_mapping] lists the pairs in their order. *)
Lemma build_new_mapping_distinct (items : list (string * string))
    (acc : Dict.t string) :
  distinct_keys (map fst items) = true ->
  (forall k, In k (map fst items) -> ~ In k (Dict.keys acc)) ->
  build_new_mapping items acc = (acc ++ effective items)%list.
Proof.
  revert acc. induction items as [|[k v] rest IH]; intros acc Hd Hacc.
  - cbn. now rewrite app_nil_r.
  - cbn [map fst distinct_keys] in Hd. apply andb_prop in Hd as [Hk Hd].
    apply negb_true_iff in Hk.
    cbn [build_new_mapping].
    rewrite setitem_absent by (apply get_not_in_keys, Hacc; now left).
    rewrite IH.
    + now rewrite <- app_assoc.
    + exact Hd.
    + intros k' Hin. unfold Dict.keys. rewrite map_app, in_app_iff.
      intros [Hin'|[<-|[]]].
      * eapply Hacc; [right; exact Hin | exact Hin'].
      * apply existsb_eqb_In in Hin. cbn [fst] in Hin. congruence.
Qed.

Lemma apply_mapping_effective (form : list (string * string)) (track : string) :
  apply_mapping (effective form) track = rename_in_order form track.
Proof.
  revert track. induction form as [|[k v] rest IH]; intros track; [reflexivity|].
  cbn [effective map apply_mapping rename_in_order fst snd].
  fold (effective rest). rewrite IH. f_equal.
  unfold new_name. destruct (String.eqb (Str.strip v) ""); cbn [negb].
  - apply replace_same.
  - reflexivity.
Qed.

(** *** Applying a clean mapping *)

Lemma apply_mapping_no_new_token (m : Dict.t string) (track k' : string) :
  Str.bracket_free k' = true ->
  Forall (fun kn => Str.bracket_free (snd kn) = true /\ snd kn <> k') m ->
  Str.contains (token k') track = false ->
  Str.contains (token k') (apply_mapping m track) = false.
Proof.
  intros Hk' Hm. revert track. induction Hm as [|[k n] m [Hn Hne] _ IH]; intros track Ht.
  - exact Ht.
  - cbn [apply_mapping]. apply IH. cbn [snd] in Hn, Hne.
    apply not_true_is_false. intros H. rewrite replace_token in H.
    apply replace_from_no_new_token in H; [congruence|assumption|assumption|congruence].
Qed.

Lemma apply_mapping_removes (m : Dict.t string) (track k' n' : string) :
  In (k', n') m -> k' <> n' ->
  Forall (fun kn => Str.bracket_free (fst kn) = true /\ Str.bracket_free (snd kn) = true) m ->
  Forall (fun kn => snd kn <> k') m ->
  Str.contains (token k') (apply_mapping m track) = false.
Proof.
  intros Hin Hne Hbf Hnames. revert track.
  induction m as [|[k n] m IH]; intros track; [destruct Hin|].
  inversion Hbf as [|? ? [Hk Hn] Hbf']; subst.
  inversion Hnames as [|? ? Hnk Hnames']; subst.
  cbn [fst snd] in Hk, Hn, Hnk. cbn [apply_mapping].
  destruct Hin as [[= -> ->]|Hin]; [|now apply IH].
  apply apply_mapping_no_new_token.
  - assumption.
  - clear -Hbf' Hnames'. induction Hbf' as [|kn m [_ H] _ IH]; constructor.
    + inversion Hnames'; subst. auto.
    + inversion Hnames'; subst. auto.
  - rewrite replace_token. now apply replace_from_removes.
Qed.

Lemma apply_mapping_fixed (m : Dict.t string) (track : string) :
  Forall (fun kn => fst kn = snd kn \/ Str.contains (token (fst kn)) track = false) m ->
  apply_mapping m track = track.
Proof.
  induction 1 as [|[k n] m Hkn _ IH]; [reflexivity|].
  cbn [apply_mapping]. cbn [fst snd] in Hkn.
  destruct Hkn as [<-|Habs].
  - now rewrite replace_same.
  - now rewrite replace_absent.
Qed.

Lemma clean_mapping_spec (m : Dict.t string) :
  clean_mapping m = true ->
  Forall (fun kn => Str.bracket_free (fst kn) = true /\ Str.bracket_free (snd kn) = true) m /\
  Forall (fun kn' => fst kn' = snd kn' \/ Forall (fun kn => snd kn <> fst kn') m) m.
Proof.
  unfold clean_mapping. intros H. apply andb_prop in H as [H1 H2]. split.
  - apply List.Forall_forall. intros kn Hin.
    rewrite forallb_forall in H1. apply H1 in Hin. now apply andb_prop in Hin.
  - apply List.Forall_forall. intros kn' Hin'.
    rewrite forallb_forall in H2. apply H2 in Hin'.
    apply orb_prop in Hin' as [He|Hall].
    + left. now apply String.eqb_eq.
    + right. apply List.Forall_forall. intros kn Hin.
      rewrite forallb_forall in Hall. apply Hall in Hin.
      apply negb_true_iff in Hin. now apply String.eqb_neq.
Qed.

(** A clean mapping applied to its own result changes nothing. *)
Lemma apply_mapping_twice (m : Dict.t string) (track : string) :
  clean_mapping m = true ->
  apply_mapping m (apply_mapping m track) = apply_mapping m track.
Proof.
  intros Hclean. apply clean_mapping_spec in Hclean as [Hbf Hnames].
  apply apply_mapping_fixed.
  apply List.Forall_forall. intros [k n] Hin. cbn [fst snd].
  destruct (string_dec k n) as [|Hne]; [now left|right].
  rewrite List.Forall_forall in Hnames. destruct (Hnames _ Hin) as [|Hall]; [contradiction|].
  now apply (apply_mapping_removes m track k n).
Qed.

Lemma rename_in_order_app (a b : list (string * string)) (track : string) :
  rename_in_order (a ++ b) track = rename_in_order b (rename_in_order a track).
Proof.
  revert track. induction a as [|[k v] a IH]; intros track; [reflexivity|].
  cbn [app rename_in_order]. apply IH.
Qed.

(** The track a request with distinct keys stores. *)
Lemma update_speakers_track (generated_files : gmap string job) (uid : string)
    (j : job) (form : list (string * string)) :
  generated_files !! uid = Some j ->
  distinct_keys (map fst form) = true ->
  track_after (update_speakers generated_files uid form) uid
  = Some (rename_in_order form (job_vtt j)).
Proof.
  intros Hj Hd. unfold track_after, update_speakers. rewrite Hj. cbn [fst].
  rewrite lookup_insert_eq. cbn [option_map set_vtt job_vtt].
  rewrite build_new_mapping_distinct by (assumption || (intros k _ [])).
  cbn [app]. now rewrite apply_mapping_effective.
Qed.

End Rename.

(** C3 (as amended).  For every stored job and every rename request with
    distinct keys, the new track is the old one after the pairs were
    applied one after the other in the order in which the request lists
    them -- not sorted by placeholder number --, each pair replacing every
    occurrence of the token [[placeholder]] by [[newName]] with the name
    trimmed of surrounding whitespace, a blank or whitespace-only name
    changing nothing; the other fields of the job are kept. *)
Theorem update_speakers_in_form_order (generated_files : gmap string job)
    (uid : string) (j : job) (form : list (string * string)) :
  generated_files !! uid = Some j ->
  distinct_keys (map fst form) = true ->
  update_speakers generated_files uid form =
  (<[uid := set_vtt (rename_in_order form (job_vtt j)) j]> generated_files,
   Template "final.html" None (Some uid) []).
Proof.
  intros Hj Hd. unfold update_speakers. rewrite Hj.
  rewrite build_new_mapping_distinct by (assumption || (intros k _ [])).
  cbn [app]. now rewrite apply_mapping_effective.
Qed.

(** Scenario C is the instance: SPEAKER_01 renamed to Alice, SPEAKER_02
    left blank. *)
Lemma update_speakers_in_form_order_witness :
  Scenario.table !! "job-1" = Some Scenario.stored /\
  distinct_keys (map fst [("SPEAKER_01", "Alice"); ("SPEAKER_02", "")]) = true /\
  update_speakers Scenario.table "job-1" [("SPEAKER_01", "Alice"); ("SPEAKER_02", "")] =
  (<["job-1" :=
      set_vtt
        (rename_in_order [("SPEAKER_01", "Alice"); ("SPEAKER_02", "")]
           (job_vtt Scenario.stored))
        Scenario.stored]> Scenario.table,
   Template "final.html" None (Some "job-1") []).
Proof.
  split; [reflexivity|]. split; [reflexivity|].
  apply (update_speakers_in_form_order Scenario.table "job-1" Scenario.stored);
    reflexivity.
Defined.

Example update_speakers_scenario_C :
  track_after
    (update_speakers Scenario.table "job-1" [("SPEAKER_01", "Alice"); ("SPEAKER_02", "")])
    "job-1"
  = Some (Scenario.track_tagged "Alice" "SPEAKER_02" "Alice").
Proof. vm_compute. reflexivity. Qed.

(** C3, counterexample.  A request that lists SPEAKER_02 before
    SPEAKER_01 is applied in that order: all three cues end up tagged Bob,
    where the pairs taken in placeholder-numeric order leave the second
    cue tagged SPEAKER_01.  And a name submitted with blanks around it is
    written without them. *)
Lemma update_speakers_not_in_numeric_order :
  track_after
    (update_speakers Scenario.table "job-1"
       [("SPEAKER_02", "SPEAKER_01"); ("SPEAKER_01", "Bob")]) "job-1"
  = Some (Scenario.track_tagged "Bob" "Bob" "Bob") /\
  rename_literal [("SPEAKER_01", "Bob"); ("SPEAKER_02", "SPEAKER_01")]
    (job_vtt Scenario.stored)
  = Scenario.track_tagged "Bob" "SPEAKER_01" "Bob" /\
  track_after
    (update_speakers Scenario.table "job-1" [("SPEAKER_01", " Alice ")]) "job-1"
  = Some (Scenario.track_tagged "Alice" "SPEAKER_02" "Alice") /\
  rename_literal [("SPEAKER_01", " Alice ")] (job_vtt Scenario.stored)
  = Scenario.track_tagged " Alice " "SPEAKER_02" " Alice " /\
  String.eqb (Scenario.track_tagged "Bob" "Bob" "Bob")
             (Scenario.track_tagged "Bob" "SPEAKER_01" "Bob") = false /\
  String.eqb (Scenario.track_tagged "Alice" "SPEAKER_02" "Alice")
             (Scenario.track_tagged " Alice " "SPEAKER_02" " Alice ") = false.
Proof. repeat split; vm_compute; reflexivity. Qed.

(** C6 (as amended).  When the rename mapping is clean -- no key and no
    trimmed new name holds a square bracket, and no new name is a key
    that the mapping renames to something else -- a second request with
    the same form leaves the table, and so the track, as the first
    request left it. *)
Theorem update_speakers_twice (generated_files : gmap string job) (uid : string)
    (form : list (string * string)) :
  clean_mapping (build_new_mapping form []) = true ->
  update_speakers (fst (update_speakers generated_files uid form)) uid form
  = update_speakers generated_files uid form.
Proof.
  intros Hclean. unfold update_speakers.
  destruct (generated_files !! uid) as [j|] eqn:Hj; cbn [fst]; [|now rewrite Hj].
  rewrite lookup_insert_eq. cbn [set_vtt job_vtt job_transcript job_video_path
                                  job_placeholder_map].
  rewrite apply_mapping_twice by assumption.
  now rewrite insert_insert_eq.
Qed.

Lemma update_speakers_twice_witness :
  clean_mapping (build_new_mapping [("SPEAKER_01", "Alice"); ("SPEAKER_02", "")] []) = true /\
  update_speakers
    (fst (update_speakers Scenario.table "job-1"
            [("SPEAKER_01", "Alice"); ("SPEAKER_02", "")]))
    "job-1" [("SPEAKER_01", "Alice"); ("SPEAKER_02", "")]
  = update_speakers Scenario.table "job-1" [("SPEAKER_01", "Alice"); ("SPEAKER_02", "")].
Proof.
  split; [reflexivity|].
  apply (update_speakers_twice Scenario.table "job-1"). reflexivity.
Defined.

(** C6, counterexample.  The mapping {SPEAKER_01: Ann, SPEAKER_02:
    SPEAKER_01}, applied once, tags the second cue SPEAKER_01; applied
    again, it renames that cue to Ann. *)
Lemma update_speakers_not_idempotent :
  track_after
    (update_speakers Scenario.table "job-1"
       [("SPEAKER_01", "Ann"); ("SPEAKER_02", "SPEAKER_01")]) "job-1"
  = Some (Scenario.track_tagged "Ann" "SPEAKER_01" "Ann") /\
  track_after
    (update_speakers
       (fst (update_speakers Scenario.table "job-1"
               [("SPEAKER_01", "Ann"); ("SPEAKER_02", "SPEAKER_01")]))
       "job-1" [("SPEAKER_01", "Ann"); ("SPEAKER_02", "SPEAKER_01")]) "job-1"
  = Some (Scenario.track_tagged "Ann" "Ann" "Ann") /\
  String.eqb (Scenario.track_tagged "Ann" "SPEAKER_01" "Ann")
             (Scenario.track_tagged "Ann" "Ann" "Ann") = false.
Proof. repeat split; vm_compute; reflexivity. Qed.

(** C10 (as amended).  Whatever the key of a submitted pair -- nothing
    relates it to the placeholders of the job --, its substitution is made
    at its turn: the track the request stores is the one in which the
    pairs before it were applied, then every occurrence of [[key]] was
    replaced by the token of the pair's new name -- the value trimmed, or
    the key itself for a blank value, which leaves the track as it is --,
    then the pairs after it; and where key and new name hold no bracket
    and differ, no [[key]] is left by that replacement. *)
Theorem update_speakers_any_key (generated_files : gmap string job) (uid : string)
    (j : job) (before after : list (string * string)) (key value : string) :
  generated_files !! uid = Some j ->
  distinct_keys (map fst (before ++ (key, value) :: after)) = true ->
  let rewritten :=
    Str.replace (token key) (token (new_name key value))
      (rename_in_order before (job_vtt j)) in
  track_after (update_speakers generated_files uid (before ++ (key, value) :: after)) uid
  = Some (rename_in_order after rewritten) /\
  (Str.bracket_free key = true -> Str.bracket_free (new_name key value) = true ->
   key <> new_name key value ->
   Str.contains (token key) rewritten = false).
Proof.
  intros Hj Hd rewritten. split.
  - rewrite (update_speakers_track generated_files uid j _ Hj Hd).
    rewrite rename_in_order_app. cbn [rename_in_order]. f_equal. f_equal.
    subst rewritten. unfold new_name.
    destruct (String.eqb (Str.strip value) ""); cbn [negb];
      [now rewrite replace_same | reflexivity].
  - intros Hk Hn Hne. subst rewritten. rewrite replace_token.
    now apply replace_from_removes.
Qed.

(** The key Alice is no placeholder of the stored job: an earlier rename
    brought it into the track. *)
Lemma update_speakers_any_key_witness :
  existsb (String.eqb "Alice") (Dict.values (job_placeholder_map Scenario.renamed)) = false /\
  Scenario.renamed_table !! "job-1" = Some Scenario.renamed /\
  distinct_keys (map fst ([("SPEAKER_02", "Bea")] ++ [("Alice", "Carol")])) = true /\
  track_after
    (update_speakers Scenario.renamed_table "job-1"
       ([("SPEAKER_02", "Bea")] ++ [("Alice", "Carol")]))
    "job-1"
  = Some (Scenario.track_tagged "Carol" "Bea" "Carol") /\
  Str.contains (token "Alice") (Scenario.track_tagged "Carol" "Bea" "Carol") = false.
Proof.
  split; [reflexivity|]. split; [reflexivity|]. split; [reflexivity|].
  destruct (update_speakers_any_key Scenario.renamed_table "job-1" Scenario.renamed
              [("SPEAKER_02", "Bea")] [] "Alice" "Carol" eq_refl eq_refl)
    as [Htrack Hgone].
  split.
  - rewrite Htrack. vm_compute. reflexivity.
  - rewrite <- (Hgone eq_refl eq_refl ltac:(discriminate)). vm_compute. reflexivity.
Defined.

(** C10, counterexample.  The token written is not that of the value as
    submitted: for the pair (Alice, " Carol ") the cues read [[Carol]], not
    [[ Carol ]], and for the pair (Alice, "  ") the track keeps [[Alice]]. *)
Lemma update_speakers_value_trimmed_or_kept :
  track_after (update_speakers Scenario.renamed_table "job-1" [("Alice", " Carol ")]) "job-1"
  = Some (Scenario.track_tagged "Carol" "SPEAKER_02" "Carol") /\
  Str.contains (token " Carol ") (Scenario.track_tagged "Carol" "SPEAKER_02" "Carol") = false /\
  track_after (update_speakers Scenario.renamed_table "job-1" [("Alice", "  ")]) "job-1"
  = Some (Scenario.track_tagged "Alice" "SPEAKER_02" "Alice") /\
  Str.contains (token "Alice") (Scenario.track_tagged "Alice" "SPEAKER_02" "Alice") = true.
Proof. repeat split; vm_compute; reflexivity. Qed.

(** ** The shape of the placeholders *)

Section Placeholders.

Lemma digit_is_digit (d : Z) : 0 <= d < 10 -> Str.is_digit (Fmt.digit d) = true.
Proof.
  intros H.
  assert (Hd : d = 0 \/ d = 1 \/ d = 2 \/ d = 3 \/ d = 4 \/ d = 5 \/ d = 6
               \/ d = 7 \/ d = 8 \/ d = 9) by lia.
  repeat (destruct Hd as [->|Hd]; [reflexivity|]). now subst.
Qed.

Lemma all_digits_append (a b : string) :
  Str.all_digits (a ++ b) = Str.all_digits a && Str.all_digits b.
Proof.
  induction a as [|c a IH]; [reflexivity|].
  cbn [append Str.all_digits]. now rewrite IH, andb_assoc.
Qed.

Lemma all_digits_bracket_free (s : string) :
  Str.all_digits s = true -> Str.bracket_free s = true.
Proof.
  induction s as [|c s IH]; intros H; [reflexivity|].
  cbn [Str.all_digits] in H. apply andb_prop in H as [Hc Hs].
  cbn [Str.bracket_free]. rewrite (IH Hs), andb_true_r.
  destruct (Ascii.eqb_spec c "["%char) as [->|_]; [discriminate|].
  destruct (Ascii.eqb_spec c "]"%char) as [->|_]; [discriminate|].
  reflexivity.
Qed.

Lemma digits_from_all_digits (fuel : nat) (n : Z) (acc : string) :
  0 <= n -> Str.all_digits acc = true ->
  Str.all_digits (Fmt.digits_from fuel n acc) = true.
Proof.
  revert n acc. induction fuel as [|f IH]; intros n acc Hn Hacc; cbn [Fmt.digits_from].
  - cbn [Str.all_digits]. rewrite Hacc, digit_is_digit; [reflexivity|].
    apply Z.mod_pos_bound. lia.
  - assert (Hacc' : Str.all_digits (String (Fmt.digit (n mod 10)) acc) = true).
    { cbn [Str.all_digits]. rewrite Hacc, digit_is_digit; [reflexivity|].
      apply Z.mod_pos_bound. lia. }
    destruct (n / 10 =? 0); [exact Hacc'|].
    apply IH; [|exact Hacc']. apply Z.div_pos; lia.
Qed.

Lemma zeros_all_digits (k : nat) : Str.all_digits (Fmt.zeros k) = true.
Proof. induction k as [|k IH]; [reflexivity|]. cbn. exact IH. Qed.

Lemma fmt_0d_all_digits (width : nat) (n : Z) :
  0 <= n -> Str.all_digits (Fmt.fmt_0d width n) = true.
Proof.
  intros Hn. unfold Fmt.fmt_0d. destruct (Z.ltb_spec n 0) as [|_]; [lia|].
  unfold Fmt.zfill. rewrite all_digits_append, zeros_all_digits.
  now apply digits_from_all_digits.
Qed.

Lemma digits_from_length (fuel : nat) (n : Z) (acc : string) :
  (S (String.length acc) <= String.length (Fmt.digits_from fuel n acc))%nat.
Proof.
  revert n acc. induction fuel as [|f IH]; intros n acc; cbn [Fmt.digits_from].
  - reflexivity.
  - destruct (n / 10 =? 0); [reflexivity|].
    etransitivity; [|apply IH]. cbn [String.length]. lia.
Qed.

(** Up to 99 the number takes two characters. *)
Lemma fmt_0d_2_small (n : nat) :
  (n < 100)%nat -> String.length (Fmt.fmt_0d 2 (Z.of_nat n)) = 2%nat.
Proof.
  intros Hn.
  assert (Hall : forallb
            (fun k => (String.length (Fmt.fmt_0d 2 (Z.of_nat k)) =? 2)%nat)
            (seq 0 100) = true) by (vm_compute; reflexivity).
  rewrite forallb_forall in Hall.
  apply Nat.eqb_eq, Hall, in_seq. lia.
Qed.

(** From 100 on it takes three or more. *)
Lemma fmt_0d_2_large (n : Z) :
  100 <= n -> (3 <= String.length (Fmt.fmt_0d 2 n))%nat.
Proof.
  intros Hn. unfold Fmt.fmt_0d. destruct (Z.ltb_spec n 0) as [|_]; [lia|].
  unfold Fmt.zfill. rewrite length_append.
  enough (3 <= String.length (Fmt.digits n))%nat by lia.
  unfold Fmt.digits.
  assert (Hlog : 6 <= Z.log2 n).
  { change 6 with (Z.log2 100). now apply Z.log2_le_mono. }
  destruct (Z.to_nat (Z.log2 n)) as [|[|f]] eqn:Hf; [lia|lia|].
  cbn [Fmt.digits_from].
  destruct (Z.eqb_spec (n / 10) 0) as [H0|_].
  { assert (10 <= n / 10) by (apply Z.div_le_lower_bound; lia). lia. }
  destruct (Z.eqb_spec (n / 10 / 10) 0) as [H0|_].
  { assert (1 <= n / 10 / 10).
    { apply Z.div_le_lower_bound; [lia|]. apply Z.div_le_lower_bound; lia. }
    lia. }
  etransitivity; [|apply digits_from_length]. reflexivity.
Qed.

Lemma speaker_label_bracket_free (n : Z) :
  0 <= n -> Str.bracket_free (speaker_label n) = true.
Proof.
  intros Hn. unfold speaker_label. cbn [append Str.bracket_free Ascii.eqb Bool.eqb negb andb].
  now apply all_digits_bracket_free, fmt_0d_all_digits.
Qed.

Lemma labels_no_token_inside_another (ns : list nat) :
  no_token_inside_another (map (fun n => speaker_label (Z.of_nat n)) ns) = true.
Proof.
  unfold no_token_inside_another.
  apply forallb_forall. intros p Hp. apply forallb_forall. intros q Hq.
  apply in_map_iff in Hp as (a & <- & _). apply in_map_iff in Hq as (b & <- & _).
  destruct (Str.contains _ _) eqn:Hc; [|now rewrite orb_true_r].
  apply contains_token_token in Hc; try (apply speaker_label_bracket_free; lia).
  rewrite Hc, String.eqb_refl. reflexivity.
Qed.

End Placeholders.

(** C8 (as amended).  Every placeholder the allocator assigns is
    SPEAKER_ followed by the decimal digits of its number, padded with a
    zero to at least two digits: exactly two up to the 99th distinct
    speaker key, three or more from the 100th on.  Whatever the number of
    keys, no bracketed placeholder token occurs inside the token of
    another placeholder. *)
Theorem placeholder_shape :
  (forall (d : option tracks) (segments : list segment),
     exists vtt pm,
       build_vtt d segments = Ok (vtt, pm) /\
       Dict.values pm =
         map (fun n => speaker_label (Z.of_nat n)) (seq 1 (List.length pm)) /\
       no_token_inside_another (Dict.values pm) = true) /\
  (forall n : nat,
     let digits := Fmt.fmt_0d 2 (Z.of_nat n) in
     speaker_label (Z.of_nat n) = "SPEAKER_" ++ digits /\
     Str.all_digits digits = true /\
     if (n <? 100)%nat then String.length digits = 2%nat
     else (3 <= String.length digits)%nat).
Proof.
  split.
  - intros d segments.
    destruct (build_vtt_spec d segments) as (vtt & pm & Hrun & Hpm & _).
    exists vtt, pm.
    assert (Hvalues : Dict.values pm =
              map (fun n => speaker_label (Z.of_nat n)) (seq 1 (List.length pm))).
    { rewrite Hpm at 1. rewrite (number_from_values 1). do 2 f_equal.
      rewrite <- (number_from_keys 1) at 1. rewrite <- Hpm.
      unfold Dict.keys. now rewrite length_map. }
    repeat split; [assumption..|].
    rewrite Hvalues. apply labels_no_token_inside_another.
  - intros n digits. repeat split.
    + apply fmt_0d_all_digits. lia.
    + destruct (Nat.ltb_spec n 100).
      * now apply fmt_0d_2_small.
      * apply fmt_0d_2_large. lia.
Qed.

(** C8, counterexample.  With a hundred distinct speakers the hundredth
    placeholder is SPEAKER_100: three digits, not two. *)
Lemma hundredth_placeholder_has_three_digits :
  nth_error
    (placeholders_of (build_vtt (Some (Scenario.crowd_turns 100))
                                (Scenario.crowd_segments 100)))
    99
  = Some "SPEAKER_100".
Proof. vm_compute. reflexivity. Qed.

(** ** Further properties *)

Section Further.

Lemma first_seen_constant (k : string) (l : list string) :
  Forall (eq k) l -> first_seen l = match l with [] => [] | _ :: _ => [k] end.
Proof.
  induction 1 as [|x l <- _ IH]; [reflexivity|].
  cbn [first_seen]. rewrite IH. destruct l; [reflexivity|].
  cbn [List.filter]. now rewrite String.eqb_refl.
Qed.

End Further.

(** Without diarization every cue is tagged SPEAKER_01, the placeholder of
    the unknown sentinel, which is then the only entry of the mapping. *)
Theorem build_vtt_without_diarization (segments : list segment) :
  exists vtt,
    build_vtt None segments
    = Ok (vtt, match segments with [] => [] | _ :: _ => [("Unknown", "SPEAKER_01")] end)
    /\ vtt ++ Str.nl
       = "WEBVTT" ++ Str.nl ++ Str.nl
           ++ String.concat ""
                (map (fun sg =>
                        format_timestamp (seg_start sg) ++ " --> "
                          ++ format_timestamp (seg_end sg) ++ Str.nl
                          ++ "[SPEAKER_01] " ++ Str.strip (seg_text sg) ++ Str.nl ++ Str.nl)
                     segments).
Proof.
  destruct (build_vtt_spec None segments) as (vtt & pm & Hrun & Hpm & _ & Htrack).
  rewrite (first_seen_constant "Unknown") in Hpm
    by (apply List.Forall_forall; intros x Hx; apply in_map_iff in Hx as (sg & <- & _);
        reflexivity).
  exists vtt. split.
  - rewrite Hrun, Hpm. now destruct segments.
  - rewrite Htrack. unfold grammar_track.
    destruct segments as [|sg0 rest]; [reflexivity|].
    erewrite map_ext; [reflexivity|].
    intros sg. unfold cue. rewrite Hpm. reflexivity.
Qed.

(** A rename request touches the track of the addressed job and nothing
    else: the other jobs of the table, and the transcript, the video path
    and the placeholder mapping of the job itself, are as before. *)
Theorem update_speakers_frame (generated_files : gmap string job) (uid other : string)
    (form : list (string * string)) :
  let after := fst (update_speakers generated_files uid form) in
  (if String.eqb other uid then True else after !! other = generated_files !! other) /\
  option_map job_transcript (after !! other)
    = option_map job_transcript (generated_files !! other) /\
  option_map job_video_path (after !! other)
    = option_map job_video_path (generated_files !! other) /\
  option_map job_placeholder_map (after !! other)
    = option_map job_placeholder_map (generated_files !! other).
Proof.
  intros after. subst after. unfold update_speakers.
  destruct (generated_files !! uid) as [j|] eqn:Hj; cbn [fst].
  - destruct (String.eqb_spec other uid) as [->|Hne].
    + rewrite lookup_insert_eq, Hj. repeat split.
    + rewrite lookup_insert_ne by congruence. repeat split.
  - destruct (String.eqb other uid); repeat split.
Qed.

(** ** The fields of a timestamp *)

Section Timestamp.

Lemma py_int_inject_Z (z : Z) : py_int (inject_Z z) = z.
Proof. unfold py_int. cbn. apply Z.quot_1_r. Qed.

(** The floor is the integer just below. *)
Lemma Qfloor_unique (x : Q) (z : Z) :
  (inject_Z z <= x)%Q -> (x < inject_Z (z + 1))%Q -> Qfloor x = z.
Proof.
  intros Hle Hlt.
  pose proof (Qfloor_le x) as H1. pose proof (Qlt_floor x) as H2.
  assert (Ha : (inject_Z z < inject_Z (Qfloor x + 1))%Q) by (eapply Qle_lt_trans; eauto).
  assert (Hb : (inject_Z (Qfloor x) < inject_Z (z + 1))%Q) by (eapply Qle_lt_trans; eauto).
  rewrite <- Zlt_Qlt in Ha, Hb. lia.
Qed.

Lemma pymod_bounds (x : Q) (y : Z) :
  0 < y -> (0 <= pymod x (inject_Z y) /\ pymod x (inject_Z y) < inject_Z y)%Q.
Proof.
  intros Hy. unfold pymod.
  assert (Hy' : (0 < inject_Z y)%Q) by (now rewrite Zlt_Qlt in Hy).
  pose proof (Qfloor_le (x / inject_Z y)) as H1.
  pose proof (Qlt_floor (x / inject_Z y)) as H2.
  rewrite inject_Z_plus in H2.
  set (f := inject_Z (Qfloor (x / inject_Z y))) in *.
  assert (Hx : (x == inject_Z y * (x / inject_Z y))%Q).
  { rewrite Qmult_div_r; [reflexivity|]. intros He. rewrite He in Hy'. now apply Qlt_irrefl in Hy'. }
  set (q := (x / inject_Z y)%Q) in *.
  split.
  - assert (inject_Z y * f <= inject_Z y * q)%Q by (apply Qmult_le_l; assumption).
    rewrite Hx at 1. lra.
  - assert (inject_Z y * q < inject_Z y * (f + inject_Z 1))%Q by (apply Qmult_lt_l; assumption).
    rewrite Hx at 1. change (inject_Z 1) with 1%Q in *. lra.
Qed.

Lemma round_half_even_bounds (x : Q) (n : Z) :
  (0 <= x)%Q -> (x < inject_Z n)%Q ->
  0 <= Fmt.round_half_even x <= n.
Proof.
  intros H0 Hn. unfold Fmt.round_half_even.
  destruct x as [a b]. unfold Qle, Qlt in *. cbn in *.
  assert (Ha : 0 <= a) by lia.
  assert (Hq : 0 <= a / Z.pos b) by (apply Z.div_pos; lia).
  assert (Hq' : a / Z.pos b < n) by (apply Z.div_lt_upper_bound; lia).
  destruct (2 * (a mod Z.pos b) ?= Z.pos b); [destruct (Z.even _)| |]; lia.
Qed.

Lemma zfill_length (width : nat) (s : string) :
  (width <= String.length (Fmt.zfill width s))%nat.
Proof.
  unfold Fmt.zfill. rewrite length_append.
  assert (String.length (Fmt.zeros (width - String.length s))
          = (width - String.length s)%nat).
  { induction (width - String.length s)%nat as [|k IH]; [reflexivity|].
    cbn. now rewrite IH. }
  lia.
Qed.

Lemma forallb_below (P : nat -> bool) (n k : nat) :
  forallb P (seq 0 n) = true -> (k < n)%nat -> P k = true.
Proof.
  intros Hall Hk. rewrite forallb_forall in Hall. apply Hall, in_seq. lia.
Qed.

(** Between 00.000 and 60.000 the seconds field takes six characters. *)
Lemma seconds_field_length (m : Z) :
  0 <= m <= 60000 -> String.length (Fmt.zfill 6 (Fmt.fixed3 m)) = 6%nat.
Proof.
  intros Hm.
  assert (Hint : (1 <= String.length (Fmt.digits (m / 1000)) <= 2)%nat).
  { assert (0 <= m / 1000 < 61).
    { split; [apply Z.div_pos; lia | apply Z.div_lt_upper_bound; lia]. }
    rewrite <- (Z2Nat.id (m / 1000)) by lia.
    pose proof (forallb_below
      (fun k => let l := String.length (Fmt.digits (Z.of_nat k)) in
                ((1 <=? l) && (l <=? 2))%nat)
      61 (Z.to_nat (m / 1000)) ltac:(vm_compute; reflexivity) ltac:(lia)) as H1.
    cbv zeta in H1. apply andb_prop in H1 as [Ha Hb].
    apply Nat.leb_le in Ha, Hb. lia. }
  assert (Hfrac : String.length (Fmt.zfill 3 (Fmt.digits (m mod 1000))) = 3%nat).
  { assert (0 <= m mod 1000 < 1000) by (apply Z.mod_pos_bound; lia).
    rewrite <- (Z2Nat.id (m mod 1000)) by lia.
    apply Nat.eqb_eq.
    apply (forallb_below
      (fun k => (String.length (Fmt.zfill 3 (Fmt.digits (Z.of_nat k))) =? 3)%nat)
      1000); [vm_compute; reflexivity | lia]. }
  assert (Hbody : (5 <= String.length (Fmt.fixed3 m) <= 6)%nat).
  { unfold Fmt.fixed3. rewrite !length_append, Hfrac. cbn [String.length]. lia. }
  unfold Fmt.zfill at 1. rewrite length_append.
  assert (Hz : forall k, String.length (Fmt.zeros k) = k).
  { induction k as [|k IH]; [reflexivity|]. cbn. now rewrite IH. }
  rewrite Hz. lia.
Qed.

End Timestamp.

(** For a number of seconds with 0 <= seconds < 2^53 -- the range on
    which [//] and [%] of the source are computed without rounding -- the
    hours are the whole hours, the minutes the whole minutes of the rest,
    both by truncation, and the remainder of the division by 60 lies in
    [0, 60): hours, minutes and remainder add up to the input.  The
    timestamp is the hours on two digits or more, a colon, the minutes on
    exactly two digits, a colon, and the remainder rounded to
    thousandths, on exactly six characters, which lies between 00.000 and
    60.000, both included. *)
Theorem format_timestamp_fields (seconds : Q) :
  (0 <= seconds)%Q ->
  (seconds < inject_Z (2 ^ 53))%Q ->
  let hours := Qfloor (seconds / 3600) in
  let minutes := Qfloor (pymod seconds 3600 / 60) in
  let secs := pymod seconds 60 in
  let millis := Fmt.round_half_even (secs * 1000) in
  0 <= hours /\ 0 <= minutes < 60 /\ (0 <= secs /\ secs < 60)%Q /\
  (seconds == inject_Z (3600 * hours + 60 * minutes) + secs)%Q /\
  0 <= millis <= 60000 /\
  format_timestamp seconds =
    Fmt.fmt_0d 2 hours ++ ":" ++ Fmt.fmt_0d 2 minutes ++ ":"
      ++ Fmt.zfill 6 (Fmt.fixed3 millis) /\
  (2 <= String.length (Fmt.fmt_0d 2 hours))%nat /\
  String.length (Fmt.fmt_0d 2 minutes) = 2%nat /\
  String.length (Fmt.zfill 6 (Fmt.fixed3 millis)) = 6%nat.
Proof.
  intros Hs _ hours minutes secs millis.
  pose proof (pymod_bounds seconds 3600 ltac:(lia)) as [Hp0 Hp1].
  pose proof (pymod_bounds seconds 60 ltac:(lia)) as [Hr0 Hr1].
  change (inject_Z 3600) with 3600%Q in *. change (inject_Z 60) with 60%Q in *.
  fold secs in Hr0, Hr1.
  (* the three quotients, each named and tied to its dividend *)
  assert (Hq1 : (seconds == 3600 * (seconds / 3600))%Q) by field.
  assert (Hq2 : (pymod seconds 3600 == 60 * (pymod seconds 3600 / 60))%Q) by field.
  assert (Hq3 : (seconds == 60 * (seconds / 60))%Q) by field.
  pose proof (Qfloor_le (pymod seconds 3600 / 60)) as Hf1.
  pose proof (Qlt_floor (pymod seconds 3600 / 60)) as Hf2.
  fold minutes in Hf1, Hf2.
  rewrite inject_Z_plus in Hf2. change (inject_Z 1) with 1%Q in Hf2.
  assert (Hpm : (pymod seconds 3600 == seconds - 3600 * inject_Z hours)%Q)
    by reflexivity.
  set (q1 := (seconds / 3600)%Q) in *.
  set (q2 := (pymod seconds 3600 / 60)%Q) in *.
  set (q3 := (seconds / 60)%Q) in *.
  set (p := pymod seconds 3600) in *.
  assert (Hh : 0 <= hours).
  { change 0 with (Qfloor 0). apply Qfloor_resp_le. lra. }
  assert (Hm : 0 <= minutes < 60).
  { split.
    - change 0 with (Qfloor 0). apply Qfloor_resp_le. lra.
    - rewrite Zlt_Qlt. change (inject_Z 60) with 60%Q. lra. }
  assert (Hmillis : 0 <= millis <= 60000).
  { apply round_half_even_bounds; [lra|]. change (inject_Z 60000) with 60000%Q. lra. }
  assert (Hfloor : Qfloor q3 = 60 * hours + minutes).
  { apply Qfloor_unique.
    - rewrite inject_Z_plus, inject_Z_mult. change (inject_Z 60) with 60%Q. lra.
    - rewrite !inject_Z_plus, inject_Z_mult.
      change (inject_Z 60) with 60%Q. change (inject_Z 1) with 1%Q. lra. }
  repeat split; try assumption; try lia.
  - unfold secs, pymod. fold q3. rewrite Hfloor.
    rewrite !inject_Z_plus, !inject_Z_mult.
    change (inject_Z 60) with 60%Q. change (inject_Z 3600) with 3600%Q. lra.
  - unfold format_timestamp, floordiv. rewrite !py_int_inject_Z.
    fold hours minutes secs. do 4 f_equal.
    unfold Fmt.fmt_0_3f. fold millis.
    apply Qle_bool_iff in Hr0. rewrite Hr0. now rewrite Z.abs_eq by lia.
  - unfold Fmt.fmt_0d. destruct (Z.ltb_spec hours 0); [lia|]. apply zfill_length.
  - rewrite <- (Z2Nat.id minutes) by lia. apply fmt_0d_2_small. lia.
  - now apply seconds_field_length.
Qed.

Lemma format_timestamp_fields_witness :
  (0 <= 3661.25)%Q /\ (3661.25 < inject_Z (2 ^ 53))%Q /\
  format_timestamp 3661.25 = "01" ++ ":" ++ "01" ++ ":" ++ "01.250".
Proof.
  split; [discriminate|]. split; [reflexivity|].
  destruct (format_timestamp_fields 3661.25 ltac:(discriminate) eq_refl)
    as (_ & _ & _ & _ & _ & Hfmt & _).
  rewrite Hfmt. vm_compute. reflexivity.
Defined.

(** ** The placeholders of the edit page *)

Section EditPage.

Lemma digit_val_digit (d : Z) : 0 <= d < 10 -> Sorted.digit_val (Fmt.digit d) = Some d.
Proof.
  intros H.
  assert (Hd : d = 0 \/ d = 1 \/ d = 2 \/ d = 3 \/ d = 4 \/ d = 5 \/ d = 6
               \/ d = 7 \/ d = 8 \/ d = 9) by lia.
  repeat (destruct Hd as [->|Hd]; [reflexivity|]). now subst.
Qed.

Lemma digit_val_is_digit (c : ascii) :
  Str.is_digit c = true -> Sorted.digit_val c = Some (Z.of_nat (nat_of_ascii c) - 48).
Proof. unfold Str.is_digit, Sorted.digit_val. cbv zeta. now intros ->. Qed.

Lemma parse_all_digits (s : string) (acc : Z) :
  Str.all_digits s = true ->
  Sorted.parse_digits s acc true = Some (digits_value acc s).
Proof.
  revert acc. induction s as [|c s IH]; intros acc H; [reflexivity|].
  cbn [Str.all_digits] in H. apply andb_prop in H as [Hc Hs].
  cbn [Sorted.parse_digits digits_value]. rewrite (digit_val_is_digit _ Hc). now apply IH.
Qed.

Lemma digits_value_digit (acc d : Z) (s : string) :
  0 <= d < 10 ->
  digits_value acc (String (Fmt.digit d) s) = digits_value (10 * acc + d) s.
Proof.
  intros H. cbn [digits_value]. f_equal. f_equal.
  pose proof (digit_val_digit d H) as Hv.
  rewrite (digit_val_is_digit _ (digit_is_digit d H)) in Hv. congruence.
Qed.

(** With enough fuel the digits written denote the number. *)
Lemma digits_from_value (fuel : nat) (n : Z) (acc : string) :
  0 <= n < 10 ^ (Z.of_nat fuel + 1) ->
  digits_value 0 (Fmt.digits_from fuel n acc) = digits_value n acc.
Proof.
  revert n acc. induction fuel as [|f IH]; intros n acc Hn; cbn [Fmt.digits_from].
  - change (10 ^ (Z.of_nat 0 + 1)) with 10 in Hn.
    rewrite digits_value_digit by (apply Z.mod_pos_bound; lia).
    f_equal. rewrite Z.mod_small; lia.
  - destruct (Z.eqb_spec (n / 10) 0) as [H0|Hne].
    + rewrite digits_value_digit by (apply Z.mod_pos_bound; lia).
      f_equal. pose proof (Z.div_mod n 10 ltac:(lia)). lia.
    + rewrite IH.
      * rewrite digits_value_digit by (apply Z.mod_pos_bound; lia).
        f_equal. pose proof (Z.div_mod n 10 ltac:(lia)). lia.
      * split; [apply Z.div_pos; lia|].
        apply Z.div_lt_upper_bound; [lia|].
        replace (Z.of_nat (S f) + 1) with (Z.succ (Z.of_nat f + 1)) in Hn by lia.
        rewrite Z.pow_succ_r in Hn by lia. lia.
Qed.

Lemma digits_value_digits (n : Z) : 0 <= n -> digits_value 0 (Fmt.digits n) = n.
Proof.
  intros Hn. unfold Fmt.digits. rewrite digits_from_value; [reflexivity|].
  split; [assumption|].
  destruct (Z.eq_dec n 0) as [->|Hne]; [reflexivity|].
  rewrite Z2Nat.id by apply Z.log2_nonneg.
  pose proof (Z.log2_spec n ltac:(lia)) as [_ Hlt].
  eapply Z.lt_le_trans; [exact Hlt|].
  unfold Z.succ. apply Z.pow_le_mono_l. lia.
Qed.

Lemma digits_value_zeros (k : nat) (s : string) :
  digits_value 0 (Fmt.zeros k ++ s) = digits_value 0 s.
Proof. induction k as [|k IH]; [reflexivity|]. cbn [Fmt.zeros append digits_value]. exact IH. Qed.

Lemma lstrip_digits (s : string) : Str.all_digits s = true -> Str.lstrip s = s.
Proof.
  destruct s as [|c s]; [reflexivity|]. cbn [Str.all_digits Str.lstrip].
  intros H. apply andb_prop in H as [Hc _].
  unfold Str.is_digit, Str.is_space in *. cbv zeta in *.
  apply andb_prop in Hc as [H1 H2]. apply Nat.leb_le in H1, H2.
  destruct (_ || _) eqn:Hsp; [|reflexivity].
  repeat (apply orb_prop in Hsp as [Hsp|Hsp]);
    repeat (apply andb_prop in Hsp as [? ?]);
    repeat match goal with
           | H : (_ <=? _)%nat = true |- _ => apply Nat.leb_le in H
           | H : (_ =? _)%nat = true |- _ => apply Nat.eqb_eq in H
           end; lia.
Qed.

Lemma rstrip_digits (s : string) : Str.all_digits s = true -> Str.rstrip s = s.
Proof.
  induction s as [|c s IH]; [reflexivity|]. intros H.
  pose proof (lstrip_digits _ H) as Hl. cbn [Str.lstrip] in Hl.
  cbn [Str.all_digits] in H. apply andb_prop in H as [_ Hs].
  cbn [Str.rstrip]. rewrite (IH Hs).
  destruct s; [|reflexivity].
  destruct (Str.is_space c); [discriminate | reflexivity].
Qed.

(** [int] reads back the number a placeholder was formatted from. *)
Lemma int_of_string_fmt (n : Z) :
  0 <= n -> Sorted.int_of_string (Fmt.fmt_0d 2 n) = Ok n.
Proof.
  intros Hn. pose proof (fmt_0d_all_digits 2 n Hn) as Hall.
  assert (Hval : digits_value 0 (Fmt.fmt_0d 2 n) = n).
  { unfold Fmt.fmt_0d. destruct (Z.ltb_spec n 0); [lia|].
    unfold Fmt.zfill. now rewrite digits_value_zeros, digits_value_digits. }
  unfold Sorted.int_of_string, Str.strip.
  rewrite (lstrip_digits _ Hall), (rstrip_digits _ Hall).
  destruct (Fmt.fmt_0d 2 n) as [|c r] eqn:Hf.
  - exfalso. pose proof (zfill_length 2 (Fmt.digits n)) as Hlen.
    unfold Fmt.fmt_0d in Hf. destruct (Z.ltb_spec n 0); [lia|].
    rewrite Hf in Hlen. cbn in Hlen. lia.
  - cbn [Str.all_digits] in Hall. apply andb_prop in Hall as [Hc Hr].
    assert (Hparse : Sorted.parse_digits (String c r) 0 false = Some n).
    { cbn [Sorted.parse_digits]. rewrite (digit_val_is_digit _ Hc).
      rewrite (parse_all_digits _ _ Hr). f_equal. exact Hval. }
    destruct c as [[] [] [] [] [] [] [] []]; try discriminate Hc;
      now rewrite Hparse.
Qed.

Lemma split_on_digits (s : string) :
  Str.all_digits s = true -> Sorted.split_on "_" s = [s].
Proof.
  induction s as [|c s IH]; [reflexivity|]. intros H.
  cbn [Str.all_digits] in H. apply andb_prop in H as [Hc Hs].
  cbn [Sorted.split_on]. rewrite (IH Hs).
  destruct (Ascii.eqb_spec c "_"%char) as [->|_]; [discriminate | reflexivity].
Qed.

Lemma number_of_speaker_label (n : Z) :
  0 <= n -> Sorted.number_of (speaker_label n) = Ok n.
Proof.
  intros Hn. unfold Sorted.number_of, speaker_label.
  cbn [append Sorted.split_on].
  rewrite (split_on_digits _ (fmt_0d_all_digits 2 n Hn)).
  cbn. now apply int_of_string_fmt.
Qed.

Lemma keyed_labels (ns : list nat) :
  Sorted.keyed (map (fun n => speaker_label (Z.of_nat n)) ns)
  = Ok (map (fun n => (Z.of_nat n, speaker_label (Z.of_nat n))) ns).
Proof.
  induction ns as [|n ns IH]; [reflexivity|].
  cbn [map Sorted.keyed]. rewrite number_of_speaker_label by lia.
  cbn [bind]. now rewrite IH.
Qed.

Lemma insert_last (kx : Z * string) (sorted : list (Z * string)) :
  Forall (fun ky => fst ky <= fst kx) sorted ->
  Sorted.insert kx sorted = (sorted ++ [kx])%list.
Proof.
  induction 1 as [|ky sorted Hle _ IH]; [reflexivity|].
  cbn [Sorted.insert app]. destruct (Z.ltb_spec (fst kx) (fst ky)); [lia|].
  now rewrite IH.
Qed.

(** Numbers that come in increasing order are left in their order. *)
Lemma sort_increasing (start len : nat) (acc : list (Z * string)) :
  Forall (fun ky => fst ky < Z.of_nat start) acc ->
  fold_left (fun acc kx => Sorted.insert kx acc)
    (map (fun n => (Z.of_nat n, speaker_label (Z.of_nat n))) (seq start len)) acc
  = (acc ++ map (fun n => (Z.of_nat n, speaker_label (Z.of_nat n))) (seq start len))%list.
Proof.
  revert start acc. induction len as [|len IH]; intros start acc Hacc.
  - cbn. now rewrite app_nil_r.
  - cbn [seq map fold_left]. rewrite insert_last.
    + rewrite IH; [now rewrite <- app_assoc|].
      apply Forall_app. split.
      * eapply List.Forall_impl; [|exact Hacc]. cbn. intros ky Hky. lia.
      * constructor; [cbn; lia | constructor].
    + eapply List.Forall_impl; [|exact Hacc]. cbn. intros ky Hky. lia.
Qed.

Lemma sorted_labels (len : nat) :
  Sorted.sorted_by_number (map (fun n => speaker_label (Z.of_nat n)) (seq 1 len))
  = Ok (map (fun n => speaker_label (Z.of_nat n)) (seq 1 len)).
Proof.
  unfold Sorted.sorted_by_number. rewrite keyed_labels. cbn [bind].
  rewrite sort_increasing by constructor. cbn [app].
  now rewrite map_map.
Qed.

End EditPage.

(** An upload that is accepted and transcoded while the token is set
    raises nothing: the job is stored under the new id with the track and
    the mapping of step 5, the transcript and the path of the video, and
    the edit page lists the placeholders of the mapping in its order,
    which is the numeric one. *)
Theorem index_stores_job (generated_files : gmap string job) (req : request)
    (env : collaborators) (filename token : string) :
  method req = "POST" ->
  files_video req = Some filename ->
  filename <> "" ->
  ffmpeg_ok env = true ->
  HUGGINGFACE_TOKEN env = Some token ->
  token <> "" ->
  exists vtt pm,
    build_vtt (diarized env) (default [] (result_segments env)) = Ok (vtt, pm) /\
    index generated_files req env =
    Ok (<[job_uuid env :=
           {| job_vtt := vtt;
              job_transcript := default "" (result_text env);
              job_video_path := tempdir env ++ "/" ++ file_uuid env ++ "_" ++ filename;
              job_placeholder_map := pm |}]> generated_files,
        Template "edit.html" None (Some (job_uuid env)) (Dict.values pm)).
Proof.
  intros Hm Hf Hname Hff Htok Hnonempty.
  destruct (build_vtt_spec (diarized env) (default [] (result_segments env)))
    as (vtt & pm & Hrun & Hpm & _).
  exists vtt, pm. split; [exact Hrun|].
  unfold index. rewrite Hm, Hf, Hff, Htok, String.eqb_refl. cbn [negb].
  apply String.eqb_neq in Hname. rewrite Hname.
  destruct token as [|c token]; [congruence|].
  rewrite Hrun. cbn [bind fst snd].
  assert (Hvalues : Dict.values pm =
            map (fun n => speaker_label (Z.of_nat n)) (seq 1 (List.length pm))).
  { rewrite Hpm at 1. rewrite (number_from_values 1). do 2 f_equal.
    rewrite <- (number_from_keys 1) at 1. rewrite <- Hpm.
    unfold Dict.keys. now rewrite length_map. }
  rewrite Hvalues at 1. rewrite sorted_labels. cbn [bind]. now rewrite <- Hvalues.
Qed.

Lemma index_stores_job_witness :
  files_video Scenario.upload = Some "talk.mp4" /\
  exists vtt pm,
    index ∅ Scenario.upload (Scenario.with_token "hf_token") =
    Ok (<["job-2" :=
           {| job_vtt := vtt;
              job_transcript := " hello";
              job_video_path := "/tmp/3f2a_talk.mp4";
              job_placeholder_map := pm |}]> ∅,
        Template "edit.html" None (Some "job-2") (Dict.values pm)).
Proof.
  split; [reflexivity|].
  destruct (index_stores_job ∅ Scenario.upload (Scenario.with_token "hf_token")
              "talk.mp4" "hf_token" eq_refl eq_refl ltac:(discriminate) eq_refl eq_refl
              ltac:(discriminate)) as (vtt & pm & _ & Hindex).
  exists vtt, pm. exact Hindex.
Defined.

(** ** More on the placeholder mapping *)

Section Mapping.

Lemma build_vtt_values (d : option tracks) (segments : list segment)
    (vtt : string) (pm : Dict.t string) :
  build_vtt d segments = Ok (vtt, pm) ->
  Dict.keys pm = first_seen (map (speaker_of d) segments) /\
  Dict.values pm = map (fun n => speaker_label (Z.of_nat n)) (seq 1 (List.length pm)).
Proof.
  intros Hrun.
  destruct (build_vtt_spec d segments) as (vtt' & pm' & Hrun' & Hpm & _).
  rewrite Hrun in Hrun'. injection Hrun' as _ <-.
  assert (Hkeys : Dict.keys pm = first_seen (map (speaker_of d) segments)).
  { rewrite Hpm at 1. apply number_from_keys. }
  split; [exact Hkeys|].
  rewrite Hpm at 1. rewrite (number_from_values 1). do 2 f_equal.
  rewrite <- Hkeys. unfold Dict.keys. now rewrite length_map.
Qed.

Lemma speaker_label_injective (a b : nat) :
  speaker_label (Z.of_nat a) = speaker_label (Z.of_nat b) -> a = b.
Proof.
  intros H.
  pose proof (number_of_speaker_label (Z.of_nat a) ltac:(lia)) as Ha.
  rewrite H, number_of_speaker_label in Ha by lia.
  injection Ha as Ha. lia.
Qed.

Lemma NoDup_map_injective {A B : Type} (f : A -> B) (l : list A) :
  (forall x y, f x = f y -> x = y) -> List.NoDup l -> List.NoDup (map f l).
Proof.
  intros Hinj. induction 1 as [|x l Hx _ IH]; cbn [map]; constructor; [|exact IH].
  intros Hin. apply in_map_iff in Hin as (y & Hy & Hin).
  apply Hinj in Hy. now subst.
Qed.

Lemma first_seen_length (l : list string) :
  (List.length (first_seen l) <= List.length l)%nat.
Proof.
  induction l as [|k l IH]; [reflexivity|]. cbn [first_seen List.length].
  pose proof (List.filter_length_le (fun x => negb (String.eqb x k)) (first_seen l)).
  lia.
Qed.

Lemma scan_tracks_label (its : tracks) (mid : F64.t) :
  scan_tracks its mid = "Unknown" \/ In (scan_tracks its mid) (map snd its).
Proof.
  induction its as [|[[t name] speaker] its IH]; [now left|].
  cbn [scan_tracks map snd]. destruct (in_turn t mid).
  - right. now left.
  - destruct IH as [IH|IH]; [now left | right; now right].
Qed.

Lemma speaker_of_label (d : option tracks) (sg : segment) :
  speaker_of d sg = "Unknown" \/ In (speaker_of d sg) (labels_of d).
Proof.
  unfold speaker_of, get_speaker_for_segment. destruct d as [its|]; [|now left].
  apply scan_tracks_label.
Qed.

Lemma get_of_entry {V : Type} (d : Dict.t V) (k : string) (v : V) :
  List.NoDup (Dict.keys d) -> In (k, v) d -> Dict.get k d = Some v.
Proof.
  induction d as [|[k' v'] d IH]; intros Hnd Hin; [destruct Hin|].
  cbn [Dict.keys map fst] in Hnd. inversion Hnd as [|? ? Hk' Hnd']; subst.
  cbn [Dict.get]. destruct Hin as [[= -> ->]|Hin].
  - now rewrite String.eqb_refl.
  - destruct (String.eqb_spec k' k) as [->|_]; [|now apply IH].
    exfalso. apply Hk'. apply in_map_iff. now exists (k, v).
Qed.

End Mapping.

Section Occurrence.

Lemma contains_prefix (t s : string) :
  String.prefix t s = true -> Str.contains t s = true.
Proof. intros H. destruct s; cbn [Str.contains]; now rewrite H. Qed.

Lemma contains_append_r (t a b : string) :
  Str.contains t b = true -> Str.contains t (a ++ b) = true.
Proof.
  intros H. induction a as [|c a IH]; [exact H|].
  cbn [append]. rewrite contains_cons, IH. apply orb_true_r.
Qed.

Lemma prefix_append_l (t a b : string) :
  String.prefix t a = true -> String.prefix t (a ++ b) = true.
Proof.
  revert a. induction t as [|c t IH]; intros a H; [now destruct (a ++ b)|].
  destruct a as [|x a]; [discriminate|].
  cbn [append]. rewrite prefix_cons in H |- *.
  apply andb_prop in H as [-> H]. now rewrite IH.
Qed.

Lemma contains_append_l (t a b : string) :
  Str.contains t a = true -> Str.contains t (a ++ b) = true.
Proof.
  induction a as [|c a IH]; intros H.
  - cbn [Str.contains] in H. rewrite orb_false_r in H.
    destruct t; [|discriminate]. apply contains_prefix. now destruct (_ ++ _).
  - rewrite contains_cons in H. cbn [append]. rewrite contains_cons.
    apply orb_true_iff in H as [H|H].
    + change (String c (a ++ b)) with (String c a ++ b).
      now rewrite prefix_append_l.
    + rewrite IH by assumption. apply orb_true_r.
Qed.

Lemma contains_concat (t sep : string) (ls : list string) (line : string) :
  In line ls -> Str.contains t line = true ->
  Str.contains t (String.concat sep ls) = true.
Proof.
  intros Hin Ht. induction ls as [|x ls IH]; [destruct Hin|].
  destruct ls as [|y ls].
  - destruct Hin as [->|[]]. exact Ht.
  - change (String.concat sep (x :: y :: ls))
      with (x ++ sep ++ String.concat sep (y :: ls)).
    destruct Hin as [->|Hin].
    + now apply contains_append_l.
    + apply contains_append_r, contains_append_r. now apply IH.
Qed.

Lemma prefix_refl_append (t r : string) : String.prefix t (t ++ r) = true.
Proof.
  induction t as [|c t IH]; [now destruct r|].
  cbn [append]. now rewrite prefix_cons, Ascii.eqb_refl.
Qed.

Lemma tagged_line_contains_token (p : string) (sg : segment) :
  exists line, In line (tagged_lines p sg) /\ Str.contains (token p) line = true.
Proof.
  exists ("[" ++ p ++ "] " ++ Str.strip (seg_text sg)). split.
  - unfold tagged_lines. right. now left.
  - apply contains_prefix.
    replace ("[" ++ p ++ "] " ++ Str.strip (seg_text sg))
      with (token p ++ " " ++ Str.strip (seg_text sg)).
    + apply prefix_refl_append.
    + unfold token. cbn [append]. now rewrite append_assoc.
Qed.

End Occurrence.

(** The placeholders of a job are pairwise distinct, as are its speaker
    keys: no two speakers share a placeholder, however many there are. *)
Theorem placeholders_distinct (d : option tracks) (segments : list segment) :
  exists vtt pm,
    build_vtt d segments = Ok (vtt, pm) /\
    List.NoDup (Dict.keys pm) /\
    List.NoDup (Dict.values pm).
Proof.
  destruct (build_vtt_spec d segments) as (vtt & pm & Hrun & _).
  destruct (build_vtt_values _ _ _ _ Hrun) as [Hkeys Hvalues].
  exists vtt, pm. split; [exact Hrun|]. split.
  - rewrite Hkeys. apply first_seen_NoDup.
  - rewrite Hvalues. apply NoDup_map_injective.
    + apply speaker_label_injective.
    + apply seq_NoDup.
Qed.

(** The mapping holds at most one placeholder per segment, and every key
    of it is the unknown sentinel or a speaker label of the diarization:
    the resolver invents no speaker. *)
Theorem placeholder_keys_bounded (d : option tracks) (segments : list segment) :
  exists vtt pm,
    build_vtt d segments = Ok (vtt, pm) /\
    (List.length pm <= List.length segments)%nat /\
    Forall (fun k => k = "Unknown" \/ In k (labels_of d)) (Dict.keys pm).
Proof.
  destruct (build_vtt_spec d segments) as (vtt & pm & Hrun & _).
  destruct (build_vtt_values _ _ _ _ Hrun) as [Hkeys _].
  exists vtt, pm. split; [exact Hrun|]. split.
  - rewrite <- (length_map fst pm). fold (Dict.keys pm). rewrite Hkeys.
    etransitivity; [apply first_seen_length|]. now rewrite length_map.
  - rewrite Hkeys. apply List.Forall_forall. intros k Hk.
    apply first_seen_In, in_map_iff in Hk as (sg & <- & _).
    apply speaker_of_label.
Qed.

(** Every placeholder of the mapping -- every field of the edit page --
    tags at least one cue: its bracketed token occurs in the track. *)
Theorem placeholders_occur_in_track (d : option tracks) (segments : list segment) :
  exists vtt pm,
    build_vtt d segments = Ok (vtt, pm) /\
    forallb (fun p => Str.contains (token p) vtt) (Dict.values pm) = true.
Proof.
  destruct (build_loop_spec d segments build_init)
    as (st & Hrun & _ & _ & Hlines & _).
  assert (Hvtt : build_vtt d segments
                 = Ok (String.concat Str.nl (vtt_lines st), placeholder_map st)).
  { unfold build_vtt. now rewrite Hrun. }
  destruct (build_vtt_values _ _ _ _ Hvtt) as [Hkeys _].
  eexists _, _. split; [exact Hvtt|].
  apply forallb_forall. intros p Hp.
  apply in_map_iff in Hp as ([k p'] & Hp & Hin). cbn [snd] in Hp. subst p'.
  assert (Hget : Dict.get k (placeholder_map st) = Some p).
  { apply get_of_entry; [|exact Hin]. rewrite Hkeys. apply first_seen_NoDup. }
  assert (Hk : In k (Dict.keys (placeholder_map st))).
  { apply in_map_iff. now exists (k, p). }
  rewrite Hkeys in Hk. apply first_seen_In, in_map_iff in Hk as (sg & Hsg & Hin').
  destruct (tagged_line_contains_token p sg) as (line & Hline & Hcontains).
  apply (contains_concat _ _ _ line); [|exact Hcontains].
  rewrite Hlines. apply in_or_app. right.
  apply in_flat_map. exists sg. split; [exact Hin'|].
  unfold cue_lines, placeholder_in. now rewrite Hsg, Hget.
Qed.

(** The number the edit page sorts a placeholder by is the counter value
    the placeholder was formatted from. *)
Theorem placeholder_number_round_trip (n : nat) :
  Sorted.number_of (speaker_label (Z.of_nat n)) = Ok (Z.of_nat n).
Proof.
  unfold Sorted.number_of, speaker_label.
  assert (Hall : Str.all_digits (Fmt.fmt_0d 2 (Z.of_nat n)) = true)
    by (apply fmt_0d_all_digits; lia).
  cbn [append Sorted.split_on]. rewrite (split_on_digits _ Hall).
  cbn. apply int_of_string_fmt. lia.
Qed.

(** ** The accuracy of a timestamp *)

Section Accuracy.

(** Rounding moves a number by half a unit at most. *)
Lemma round_half_even_error (x : Q) :
  (inject_Z (Fmt.round_half_even x) - (1 # 2) <= x
   /\ x <= inject_Z (Fmt.round_half_even x) + (1 # 2))%Q.
Proof.
  unfold Fmt.round_half_even. destruct x as [a b].
  cbn [Qnum Qden].
  pose proof (Z.div_mod a (Z.pos b) ltac:(lia)) as Hdm.
  pose proof (Z.mod_pos_bound a (Z.pos b) ltac:(lia)) as Hmod.
  set (q := a / Z.pos b) in *. set (r := a mod Z.pos b) in *.
  assert (Hcases : forall z, 2 * Z.abs (z * Z.pos b - a) <= Z.pos b ->
            (inject_Z z - (1 # 2) <= a # b /\ a # b <= inject_Z z + (1 # 2))%Q).
  { intros z Hz. unfold Qle, Qminus, Qplus, Qopp, inject_Z. cbn. split; nia. }
  destruct (Z.compare_spec (2 * r) (Z.pos b)) as [He|Hl|Hg].
  - destruct (Z.even q); apply Hcases; nia.
  - apply Hcases. nia.
  - apply Hcases. nia.
Qed.

(** Hours, minutes and the remainder of the division by 60 add up to the
    number of seconds. *)
Lemma timestamp_decomposition (seconds : Q) :
  (seconds ==
   inject_Z (3600 * Qfloor (seconds / 3600) + 60 * Qfloor (pymod seconds 3600 / 60))
   + pymod seconds 60)%Q.
Proof.
  pose proof (Qfloor_le (pymod seconds 3600 / 60)) as Hf1.
  pose proof (Qlt_floor (pymod seconds 3600 / 60)) as Hf2.
  rewrite inject_Z_plus in Hf2. change (inject_Z 1) with 1%Q in Hf2.
  assert (Hq2 : (pymod seconds 3600 == 60 * (pymod seconds 3600 / 60))%Q) by field.
  assert (Hq3 : (seconds == 60 * (seconds / 60))%Q) by field.
  assert (Hpm : (pymod seconds 3600
                 == seconds - 3600 * inject_Z (Qfloor (seconds / 3600)))%Q)
    by reflexivity.
  set (hours := Qfloor (seconds / 3600)) in *.
  set (minutes := Qfloor (pymod seconds 3600 / 60)) in *.
  set (q2 := (pymod seconds 3600 / 60)%Q) in *.
  set (p := pymod seconds 3600) in *.
  assert (Hfloor : Qfloor (seconds / 60) = 60 * hours + minutes).
  { set (q3 := (seconds / 60)%Q) in *. apply Qfloor_unique.
    - rewrite inject_Z_plus, inject_Z_mult. change (inject_Z 60) with 60%Q. lra.
    - rewrite !inject_Z_plus, inject_Z_mult.
      change (inject_Z 60) with 60%Q. change (inject_Z 1) with 1%Q. lra. }
  unfold pymod at 1. rewrite Hfloor.
  rewrite !inject_Z_plus, !inject_Z_mult.
  change (inject_Z 60) with 60%Q. change (inject_Z 3600) with 3600%Q. lra.
Qed.

End Accuracy.

(** For a number of seconds with 0 <= seconds < 2^53 -- the range on
    which [//] and [%] of the source are computed without rounding -- the
    timestamp is made of the whole hours, the whole minutes of the rest
    and the thousandths the remainder rounds to, and read back as a
    number -- 3600 hours + 60 minutes + thousandths / 1000 -- it differs
    from the input by half a millisecond at most. *)
Theorem timestamp_reads_back (seconds : Q) :
  (0 <= seconds)%Q ->
  (seconds < inject_Z (2 ^ 53))%Q ->
  let hours := Qfloor (seconds / 3600) in
  let minutes := Qfloor (pymod seconds 3600 / 60) in
  let millis := Fmt.round_half_even (pymod seconds 60 * 1000) in
  format_timestamp seconds =
    Fmt.fmt_0d 2 hours ++ ":" ++ Fmt.fmt_0d 2 minutes ++ ":"
      ++ Fmt.zfill 6 (Fmt.fixed3 millis) /\
  (seconds - (1 # 2000)
     <= inject_Z (3600 * hours + 60 * minutes) + inject_Z millis / 1000
   /\ inject_Z (3600 * hours + 60 * minutes) + inject_Z millis / 1000
     <= seconds + (1 # 2000))%Q.
Proof.
  intros _ _ hours minutes millis.
  pose proof (pymod_bounds seconds 60 ltac:(lia)) as [Hr0 Hr1].
  change (inject_Z 60) with 60%Q in *.
  pose proof (round_half_even_error (pymod seconds 60 * 1000)) as [He1 He2].
  fold millis in He1, He2.
  assert (Hmillis : 0 <= millis).
  { unfold millis. apply (round_half_even_bounds _ 60000); [lra|].
    change (inject_Z 60000) with 60000%Q. lra. }
  split.
  - unfold format_timestamp, floordiv. rewrite !py_int_inject_Z.
    fold hours minutes. do 4 f_equal.
    unfold Fmt.fmt_0_3f. fold millis.
    apply Qle_bool_iff in Hr0. rewrite Hr0. now rewrite Z.abs_eq by lia.
  - pose proof (timestamp_decomposition seconds) as Hd. fold hours minutes in Hd.
    assert (Hq : (inject_Z millis == 1000 * (inject_Z millis / 1000))%Q) by field.
    set (v := (inject_Z millis / 1000)%Q) in *.
    set (hm := inject_Z (3600 * hours + 60 * minutes)) in *.
    set (secs := pymod seconds 60) in *.
    split; lra.
Qed.

Lemma timestamp_reads_back_witness :
  (0 <= 122879 # 2048)%Q /\ (122879 # 2048 < inject_Z (2 ^ 53))%Q /\
  format_timestamp (122879 # 2048) = "00" ++ ":" ++ "00" ++ ":" ++ "60.000" /\
  ((122879 # 2048) - (1 # 2000) <= inject_Z (3600 * 0 + 60 * 0) + inject_Z 60000 / 1000)%Q.
Proof.
  split; [discriminate|]. split; [reflexivity|].
  destruct (timestamp_reads_back (122879 # 2048) ltac:(discriminate) eq_refl)
    as [Hfmt [Hlow _]].
  split; [rewrite Hfmt; vm_compute; reflexivity | exact Hlow].
Defined.

(** ** The outcomes of an upload *)

Section Upload.

Lemma sorted_values (d : option tracks) (segments : list segment)
    (vtt : string) (pm : Dict.t string) :
  build_vtt d segments = Ok (vtt, pm) ->
  Sorted.sorted_by_number (Dict.values pm) = Ok (Dict.values pm).
Proof.
  intros Hrun. destruct (build_vtt_values _ _ _ _ Hrun) as [_ Hvalues].
  rewrite Hvalues at 1. rewrite sorted_labels. now rewrite <- Hvalues.
Qed.

(** What [index] returns once steps 1 to 3 let the request through. *)
Lemma index_accepted (generated_files : gmap string job) (req : request)
    (env : collaborators) (filename : string) (c : ascii) (token : string)
    (vtt : string) (pm : Dict.t string) :
  method req = "POST" ->
  files_video req = Some filename ->
  filename <> "" ->
  ffmpeg_ok env = true ->
  HUGGINGFACE_TOKEN env = Some (String c token) ->
  build_vtt (diarized env) (default [] (result_segments env)) = Ok (vtt, pm) ->
  index generated_files req env =
  Ok (<[job_uuid env :=
         {| job_vtt := vtt;
            job_transcript := default "" (result_text env);
            job_video_path := video_filename_of env filename;
            job_placeholder_map := pm |}]> generated_files,
      Template "edit.html" None (Some (job_uuid env)) (Dict.values pm)).
Proof.
  intros Hm Hf Hname Hff Htok Hrun.
  unfold index. rewrite Hm, Hf, Hff, Htok, String.eqb_refl. cbn [negb].
  apply String.eqb_neq in Hname. rewrite Hname.
  rewrite Hrun. cbn [bind fst snd].
  now rewrite (sorted_values _ _ _ _ Hrun).
Qed.

Lemma index_files_accepted (req : request) (env : collaborators)
    (filename : string) (c : ascii) (token : string) :
  method req = "POST" ->
  files_video req = Some filename ->
  filename <> "" ->
  ffmpeg_ok env = true ->
  HUGGINGFACE_TOKEN env = Some (String c token) ->
  index_files req env =
  [ Saved (video_filename_of env filename);
    Ran (ffmpeg_command (video_filename_of env filename)
           (audio_filename_of (video_filename_of env filename)));
    Removed (audio_filename_of (video_filename_of env filename)) ].
Proof.
  intros Hm Hf Hname Hff Htok.
  destruct (build_vtt_spec (diarized env) (default [] (result_segments env)))
    as (vtt & pm & Hrun & _).
  unfold index_files. rewrite Hm, Hf, Hff, Htok, String.eqb_refl. cbn [negb].
  apply String.eqb_neq in Hname. rewrite Hname. now rewrite Hrun.
Qed.

End Upload.

(** A request is answered with the index page, the table left as it is,
    exactly when it is rejected in step 1 or 2: it is no POST, carries no
    part named video or a part without file name, or the transcoder fails
    on it -- whether or not the token is set. *)
Theorem index_page_iff_rejected (generated_files : gmap string job) (req : request)
    (env : collaborators) :
  (exists error, index generated_files req env = Ok (generated_files, index_page error))
  <-> rejected req env.
Proof.
  unfold rejected, index.
  destruct (String.eqb_spec (method req) "POST") as [Hm|Hm].
  2: { split; [now left | eauto]. }
  destruct (files_video req) as [filename|].
  2: { split; [now (right; left) | eauto]. }
  destruct (String.eqb_spec filename "") as [->|Hname].
  { split; [now (right; right; left) | eauto]. }
  destruct (ffmpeg_ok env); cbn [negb].
  2: { split; [now (right; right; right) | eauto]. }
  split.
  - intros [error H]. exfalso.
    destruct (HUGGINGFACE_TOKEN env) as [[|c token]|]; try discriminate H.
    destruct (build_vtt _ _) as [[vtt pm]|e]; cbn [bind] in H; [|discriminate H].
    destruct (Sorted.sorted_by_number _); cbn [bind] in H; [|discriminate H].
    unfold index_page in H. congruence.
  - intros [H|[H|[H|H]]]; congruence.
Qed.



(** After an upload that was accepted, the new job is served: its track
    as subtitles.vtt, its transcript as transcript.txt and the saved
    upload as its video; the jobs stored under other ids are as before. *)
Theorem upload_then_served (generated_files : gmap string job) (req : request)
    (env : collaborators) (filename token : string) (other : string) :
  method req = "POST" ->
  files_video req = Some filename ->
  filename <> "" ->
  ffmpeg_ok env = true ->
  HUGGINGFACE_TOKEN env = Some token ->
  token <> "" ->
  exists vtt pm table response,
    build_vtt (diarized env) (default [] (result_segments env)) = Ok (vtt, pm) /\
    index generated_files req env = Ok (table, response) /\
    download table (job_uuid env) (Some "vtt")
      = Ok (SendFile vtt "subtitles.vtt" "text/vtt") /\
    download table (job_uuid env) (Some "transcript")
      = Ok (SendFile (default "" (result_text env)) "transcript.txt" "text/plain") /\
    video table (job_uuid env) = SendPath (video_filename_of env filename) /\
    (if String.eqb other (job_uuid env) then True
     else table !! other = generated_files !! other).
Proof.
  intros Hm Hf Hname Hff Htok Hnonempty.
  destruct token as [|c token]; [congruence|].
  destruct (build_vtt_spec (diarized env) (default [] (result_segments env)))
    as (vtt & pm & Hrun & _).
  eexists vtt, pm, _, _. split; [exact Hrun|]. split.
  { now apply (index_accepted _ _ _ filename c token vtt pm). }
  unfold download, video. rewrite lookup_insert_eq. repeat split.
  destruct (String.eqb_spec other (job_uuid env)) as [|Hne]; [exact I|].
  rewrite lookup_insert_ne by congruence. reflexivity.
Qed.

Lemma upload_then_served_witness :
  files_video Scenario.upload = Some "talk.mp4" /\
  HUGGINGFACE_TOKEN (Scenario.with_token "hf_token") = Some "hf_token" /\
  exists table response,
    index Scenario.table Scenario.upload (Scenario.with_token "hf_token")
      = Ok (table, response) /\
    download table "job-2" (Some "vtt")
      = Ok (SendFile Scenario.track_A "subtitles.vtt" "text/vtt") /\
    video table "job-2" = SendPath "/tmp/3f2a_talk.mp4" /\
    table !! "job-1" = Some Scenario.stored.
Proof.
  split; [reflexivity|]. split; [reflexivity|].
  destruct (upload_then_served Scenario.table Scenario.upload
              (Scenario.with_token "hf_token") "talk.mp4" "hf_token" "job-1"
              eq_refl eq_refl ltac:(discriminate) eq_refl eq_refl ltac:(discriminate))
    as (vtt & pm & table & response & Hrun & Hindex & Hvtt & _ & Hvideo & Hother).
  exists table, response.
  assert (Hbuilt : build_vtt (diarized (Scenario.with_token "hf_token"))
                     (default [] (result_segments (Scenario.with_token "hf_token")))
                   = Ok (Scenario.track_A, [("Unknown", "SPEAKER_01")]))
    by (vm_compute; reflexivity).
  rewrite Hbuilt in Hrun. injection Hrun as <- <-.
  repeat split; assumption.
Defined.

(** An upload in which the transcription finds no segment is stored all
    the same: its track is the header line alone, its mapping is empty
    and the edit page has no placeholder to rename. *)
Theorem upload_without_segments (generated_files : gmap string job) (req : request)
    (env : collaborators) (filename token : string) :
  method req = "POST" ->
  files_video req = Some filename ->
  filename <> "" ->
  ffmpeg_ok env = true ->
  HUGGINGFACE_TOKEN env = Some token ->
  token <> "" ->
  result_segments env = None \/ result_segments env = Some [] ->
  index generated_files req env =
  Ok (<[job_uuid env :=
         {| job_vtt := "WEBVTT" ++ Str.nl;
            job_transcript := default "" (result_text env);
            job_video_path := video_filename_of env filename;
            job_placeholder_map := [] |}]> generated_files,
      Template "edit.html" None (Some (job_uuid env)) []).
Proof.
  intros Hm Hf Hname Hff Htok Hnonempty Hsegs.
  destruct token as [|c token]; [congruence|].
  apply (index_accepted _ _ _ filename c token); try assumption.
  now destruct Hsegs as [-> | ->].
Qed.

Lemma upload_without_segments_witness :
  files_video Scenario.upload = Some "talk.mp4" /\
  result_segments Scenario.silent = Some [] /\
  index ∅ Scenario.upload Scenario.silent =
  Ok (<["job-2" :=
         {| job_vtt := "WEBVTT" ++ Str.nl;
            job_transcript := "";
            job_video_path := "/tmp/3f2a_talk.mp4";
            job_placeholder_map := [] |}]> ∅,
      Template "edit.html" None (Some "job-2") []).
Proof.
  split; [reflexivity|]. split; [reflexivity|].
  apply (upload_without_segments ∅ Scenario.upload Scenario.silent "talk.mp4" "hf_token");
    [reflexivity | reflexivity | discriminate | reflexivity | reflexivity
     | discriminate | right; reflexivity].
Defined.

(** ** What a download raises *)

(** [download] raises in one case only: for a stored job and the kind
    placeholder_map, whose value is a dictionary and has no [encode].
    Every other request is answered. *)
Theorem download_raises_iff (generated_files : gmap string job) (uid : string)
    (file_type : option string) :
  (download generated_files uid file_type
   = Raise (AttributeError "'dict' object has no attribute 'encode'")
   <-> (exists j, generated_files !! uid = Some j) /\ file_type = Some "placeholder_map")
  /\ ((exists response, download generated_files uid file_type = Ok response)
      \/ download generated_files uid file_type
         = Raise (AttributeError "'dict' object has no attribute 'encode'")).
Proof.
  unfold download.
  destruct (generated_files !! uid) as [j|].
  2: { split; [|eauto]. split; [discriminate | now intros [[j Hj] _]]. }
  destruct file_type as [kind|].
  2: { split; [|eauto]. split; [discriminate | now intros [_ H]]. }
  destruct (String.eqb_spec kind "placeholder_map") as [->|H4].
  { split; [|now right]. split; [eauto | reflexivity]. }
  assert (Hok : exists response,
            (if negb (Dict.mem kind (job_items j))
             then Ok (Text "Requested file not found." 404)
             else
               let! content := Dict.getitem (job_items j) kind in
               let '(filename, mimetype) :=
                 if String.eqb kind "vtt" then ("subtitles.vtt", "text/vtt")
                 else if String.eqb kind "transcript" then ("transcript.txt", "text/plain")
                 else ("file.txt", "text/plain") in
               let! bytes := encode content in
               Ok (SendFile bytes filename mimetype)) = Ok response).
  { destruct (String.eqb_spec kind "vtt") as [->|H1]; [eexists; reflexivity|].
    destruct (String.eqb_spec kind "transcript") as [->|H2]; [eexists; reflexivity|].
    destruct (String.eqb_spec kind "video_path") as [->|H3].
    { eexists. reflexivity. }
    unfold Dict.mem, job_items. cbn [Dict.get].
    rewrite !(String.eqb_sym _ kind).
    apply String.eqb_neq in H1, H2, H3, H4. rewrite H1, H2, H3, H4. cbn. eauto. }
  destruct Hok as [response Hok]. rewrite Hok.
  split; [|eauto]. split; [discriminate|]. intros [_ [= ->]]. congruence.
Qed.

(** ** Renaming on a track as step 5 built it *)

Section Retag.

Lemma replace_from_no_open (t new a r : string) :
  Str.no_open a = true ->
  Str.replace_from (String "[" t) new 0 (a ++ r)
  = a ++ Str.replace_from (String "[" t) new 0 r.
Proof.
  induction a as [|c a IH]; intros H; [reflexivity|].
  simpl in H. apply andb_prop in H as [Hc Ha]. apply negb_true_iff in Hc.
  simpl append. rewrite replace_from_scan, prefix_cons, Ascii.eqb_sym, Hc.
  cbn [andb]. now rewrite IH.
Qed.

Lemma replace_from_pass (old new a r : string) :
  Str.replace_from old new (String.length a) (a ++ r) = Str.replace_from old new 0 r.
Proof.
  induction a as [|c a IH]; [reflexivity|].
  simpl append. cbn [String.length]. rewrite replace_from_skip. exact IH.
Qed.

(** A tag that reads [k] is rewritten, and the scan goes on behind it. *)
Lemma replace_from_hit (k new r : string) :
  Str.replace_from (token k) new 0 (token k ++ r)
  = new ++ Str.replace_from (token k) new 0 r.
Proof.
  assert (Hp : String.prefix (token k) (String "[" ((k ++ "]") ++ r)) = true)
    by exact (prefix_refl_append (token k) r).
  assert (Hl : (String.length (token k) - 1)%nat = String.length (k ++ "]"))
    by (rewrite token_unfold; cbn [String.length]; lia).
  change (token k ++ r) with (String "[" ((k ++ "]") ++ r)).
  rewrite replace_from_scan, Hp, Hl. now rewrite replace_from_pass.
Qed.

(** A tag that reads another name is passed over. *)
Lemma replace_from_miss (k q new r : string) :
  Str.bracket_free k = true -> Str.bracket_free q = true -> k <> q ->
  Str.replace_from (token k) new 0 (token q ++ r)
  = token q ++ Str.replace_from (token k) new 0 r.
Proof.
  intros Hk Hq Hne.
  change (token q ++ r) with (String "[" ((q ++ "]") ++ r)).
  rewrite replace_from_scan.
  destruct (String.prefix (token k) (String "[" ((q ++ "]") ++ r))) eqn:Hp.
  - exfalso. apply Hne. rewrite token_unfold, prefix_cons in Hp.
    apply andb_prop in Hp as [_ Hp]. rewrite append_assoc in Hp.
    now apply (name_prefix_eq k q r).
  - change (token k) with (String "[" (k ++ "]")).
    rewrite replace_from_no_open by now apply name_close_no_open.
    reflexivity.
Qed.

(** Lines that are rewritten one by one are rewritten so when joined. *)
Lemma lines_replace (t new : string) (ls ls' : list string) :
  Forall2 (fun l l' => forall r,
             Str.replace_from (String "[" t) new 0 (l ++ r)
             = l' ++ Str.replace_from (String "[" t) new 0 r) ls ls' ->
  Str.replace_from (String "[" t) new 0 (String.concat Str.nl ls)
  = String.concat Str.nl ls'.
Proof.
  induction 1 as [|l l' ls ls' Hl Hrest IH]; [reflexivity|].
  inversion Hrest as [|l2 l2' ls2 ls2' _ _]; subst.
  - cbn [String.concat]. specialize (Hl ""). rewrite append_nil_r in Hl.
    rewrite Hl. cbn [Str.replace_from]. apply append_nil_r.
  - change (String.concat Str.nl (l :: l2 :: ls2))
      with (l ++ Str.nl ++ String.concat Str.nl (l2 :: ls2)).
    rewrite Hl, replace_from_no_open by reflexivity. now rewrite IH.
Qed.

(** *** Lines without opening bracket *)

Lemma digits_no_open (n : Z) : 0 <= n -> Str.no_open (Fmt.digits n) = true.
Proof.
  intros Hn. apply bracket_free_no_open, all_digits_bracket_free.
  now apply digits_from_all_digits.
Qed.

Lemma zfill_no_open (width : nat) (s : string) :
  Str.no_open s = true -> Str.no_open (Fmt.zfill width s) = true.
Proof.
  intros H. unfold Fmt.zfill. rewrite no_open_append, H, andb_true_r.
  apply bracket_free_no_open, all_digits_bracket_free, zeros_all_digits.
Qed.

Lemma fmt_0d_no_open (width : nat) (n : Z) : Str.no_open (Fmt.fmt_0d width n) = true.
Proof.
  unfold Fmt.fmt_0d. destruct (Z.ltb_spec n 0).
  - cbn [Str.no_open]. apply zfill_no_open, digits_no_open. lia.
  - apply zfill_no_open, digits_no_open. lia.
Qed.

Lemma fixed3_no_open (m : Z) : 0 <= m -> Str.no_open (Fmt.fixed3 m) = true.
Proof.
  intros Hm. unfold Fmt.fixed3. rewrite !no_open_append.
  rewrite digits_no_open by (apply Z.div_pos; lia).
  rewrite zfill_no_open by (apply digits_no_open, Z.mod_pos_bound; lia).
  reflexivity.
Qed.

Lemma format_timestamp_no_open (seconds : Q) :
  Str.no_open (format_timestamp seconds) = true.
Proof.
  unfold format_timestamp. cbv zeta. rewrite !no_open_append, !fmt_0d_no_open.
  cbn [Str.no_open Ascii.eqb Bool.eqb negb andb].
  unfold Fmt.fmt_0_3f. cbv zeta. destruct (Qle_bool 0 _).
  - apply zfill_no_open, fixed3_no_open, Z.abs_nonneg.
  - cbn [Str.no_open]. apply zfill_no_open, fixed3_no_open, Z.abs_nonneg.
Qed.

Lemma lstrip_no_open (s : string) :
  Str.no_open s = true -> Str.no_open (Str.lstrip s) = true.
Proof.
  induction s as [|c s IH]; intros H; [reflexivity|].
  cbn [Str.lstrip]. destruct (Str.is_space c); [|exact H].
  cbn [Str.no_open] in H. apply andb_prop in H as [_ H]. now apply IH.
Qed.

Lemma rstrip_no_open (s : string) :
  Str.no_open s = true -> Str.no_open (Str.rstrip s) = true.
Proof.
  induction s as [|c s IH]; intros H; [reflexivity|].
  cbn [Str.no_open] in H. apply andb_prop in H as [Hc Hs]. specialize (IH Hs).
  cbn [Str.rstrip]. destruct (Str.rstrip s) as [|a r].
  - destruct (Str.is_space c); [reflexivity|]. cbn [Str.no_open]. now rewrite Hc.
  - change (Str.no_open (String c (String a r)))
      with (negb (Ascii.eqb c "[") && Str.no_open (String a r)).
    now rewrite Hc, IH.
Qed.

Lemma strip_no_open (s : string) :
  Str.no_open s = true -> Str.no_open (Str.strip s) = true.
Proof. intros H. now apply rstrip_no_open, lstrip_no_open. Qed.

(** *** The lines of a cue *)

Lemma tag_split (q text : string) : "[" ++ q ++ "] " ++ text = token q ++ " " ++ text.
Proof. unfold token. simpl append. now rewrite append_assoc. Qed.

Lemma tagged_lines_replace (k n q : string) (sg : segment) :
  Str.bracket_free k = true ->
  Str.bracket_free q = true ->
  Str.no_open (seg_text sg) = true ->
  Forall2 (fun l l' => forall r,
             Str.replace_from (String "[" (k ++ "]")) (token n) 0 (l ++ r)
             = l' ++ Str.replace_from (String "[" (k ++ "]")) (token n) 0 r)
    (tagged_lines q sg)
    (tagged_lines (if String.eqb q k then n else q) sg).
Proof.
  intros Hk Hq Htext. unfold tagged_lines.
  assert (Hsp : Str.no_open (" " ++ Str.strip (seg_text sg)) = true).
  { rewrite no_open_append, strip_no_open by assumption. reflexivity. }
  repeat constructor.
  - intros r. apply replace_from_no_open.
    rewrite !no_open_append, !format_timestamp_no_open. reflexivity.
  - intros r. rewrite !tag_split, !append_assoc.
    change (String "[" (k ++ "]")) with (token k).
    destruct (String.eqb_spec q k) as [->|Hne].
    + rewrite replace_from_hit. f_equal.
      exact (replace_from_no_open (k ++ "]") (token n)
               (" " ++ Str.strip (seg_text sg)) r Hsp).
    + rewrite replace_from_miss by (assumption || congruence). f_equal.
      exact (replace_from_no_open (k ++ "]") (token n)
               (" " ++ Str.strip (seg_text sg)) r Hsp).
Qed.

Lemma retag_track (k n : string) (lab : segment -> string) (segments : list segment) :
  Str.bracket_free k = true ->
  Forall (fun sg => Str.bracket_free (lab sg) = true /\
                    Str.no_open (seg_text sg) = true) segments ->
  Str.replace (token k) (token n)
    (String.concat Str.nl
       (["WEBVTT"; ""] ++ flat_map (fun sg => tagged_lines (lab sg) sg) segments))
  = String.concat Str.nl
      (["WEBVTT"; ""]
       ++ flat_map (fun sg => tagged_lines (if String.eqb (lab sg) k then n else lab sg) sg)
            segments).
Proof.
  intros Hk Hsegs. rewrite replace_token.
  apply (lines_replace (k ++ "]")).
  apply Forall2_app.
  - repeat constructor; intros r; now apply replace_from_no_open.
  - induction Hsegs as [|sg rest [Hlab Htext] _ IH]; [constructor|].
    cbn [flat_map]. apply Forall2_app; [|exact IH].
    now apply tagged_lines_replace.
Qed.

Lemma flat_map_ext_Forall {A B : Type} (f g : A -> list B) (l : list A) :
  Forall (fun x => f x = g x) l -> flat_map f l = flat_map g l.
Proof.
  induction 1 as [|x l Hx _ IH]; [reflexivity|]. cbn [flat_map]. now rewrite Hx, IH.
Qed.

Lemma new_name_bracket_free (k v : string) :
  Str.bracket_free k = true -> Str.bracket_free (Str.strip v) = true ->
  Str.bracket_free (new_name k v) = true.
Proof. intros Hk Hv. unfold new_name. now destruct (negb _). Qed.

(** The pairs of a form applied in order retag the cues and nothing else. *)
Lemma rename_in_order_retags (form : list (string * string)) (lab : segment -> string)
    (segments : list segment) :
  Forall (fun kv => Str.bracket_free (fst kv) = true /\
                    Str.bracket_free (Str.strip (snd kv)) = true) form ->
  Forall (fun sg => Str.bracket_free (lab sg) = true /\
                    Str.no_open (seg_text sg) = true) segments ->
  rename_in_order form
    (String.concat Str.nl
       (["WEBVTT"; ""] ++ flat_map (fun sg => tagged_lines (lab sg) sg) segments))
  = String.concat Str.nl
      (["WEBVTT"; ""]
       ++ flat_map (fun sg => tagged_lines (rename_label form (lab sg)) sg) segments).
Proof.
  intros Hform. revert lab.
  induction Hform as [|[k v] rest [Hk Hv] _ IH]; intros lab Hsegs; [reflexivity|].
  cbn [fst snd] in Hk, Hv. cbn [rename_in_order rename_label].
  assert (Hstep :
    (if String.eqb (Str.strip v) "" then
       String.concat Str.nl
         (["WEBVTT"; ""] ++ flat_map (fun sg => tagged_lines (lab sg) sg) segments)
     else
       Str.replace (token k) (token (Str.strip v))
         (String.concat Str.nl
            (["WEBVTT"; ""] ++ flat_map (fun sg => tagged_lines (lab sg) sg) segments)))
    = String.concat Str.nl
        (["WEBVTT"; ""]
         ++ flat_map
              (fun sg => tagged_lines
                           (if String.eqb (lab sg) k then new_name k v else lab sg) sg)
              segments)).
  { unfold new_name. destruct (String.eqb (Str.strip v) ""); cbn [negb].
    - do 2 f_equal. apply flat_map_ext_Forall.
      apply List.Forall_forall. intros sg _.
      now destruct (String.eqb_spec (lab sg) k) as [->|].
    - now apply retag_track. }
  rewrite Hstep.
  apply (IH (fun sg => if String.eqb (lab sg) k then new_name k v else lab sg)).
  eapply List.Forall_impl; [|exact Hsegs].
  intros sg [Hlab Htext]. split; [|exact Htext].
  destruct (String.eqb (lab sg) k); [now apply new_name_bracket_free | exact Hlab].
Qed.

Lemma get_In_values {V : Type} (k : string) (d : Dict.t V) (v : V) :
  Dict.get k d = Some v -> In v (Dict.values d).
Proof.
  induction d as [|[k' v'] d IH]; [discriminate|].
  cbn [Dict.get Dict.values map snd]. destruct (String.eqb k' k).
  - intros [= ->]. now left.
  - intros H. right. now apply IH.
Qed.

Lemma placeholder_in_relabelled (form : list (string * string)) (pm : Dict.t string)
    (key : string) :
  Dict.mem key pm = true ->
  placeholder_in (relabelled form pm) key = rename_label form (placeholder_in pm key).
Proof.
  unfold placeholder_in, Dict.mem.
  induction pm as [|[k' v'] pm IH]; [discriminate|].
  cbn [relabelled map Dict.get fst snd]. destruct (String.eqb k' key); [reflexivity|].
  exact IH.
Qed.

(** The track of a run of step 5, line by line, and its placeholders. *)
Lemma build_vtt_lines (d : option tracks) (segments : list segment)
    (vtt : string) (pm : Dict.t string) :
  build_vtt d segments = Ok (vtt, pm) ->
  vtt = String.concat Str.nl
          (["WEBVTT"; ""]
           ++ flat_map (fun sg => tagged_lines (placeholder_in pm (speaker_of d sg)) sg)
                segments) /\
  Forall (fun sg => Dict.mem (speaker_of d sg) pm = true /\
                    Str.bracket_free (placeholder_in pm (speaker_of d sg)) = true)
    segments.
Proof.
  intros Hrun. pose proof (build_vtt_values _ _ _ _ Hrun) as [_ Hvalues].
  destruct (build_loop_spec d segments build_init)
    as (st' & Hloop & _ & _ & Hlines & Hall).
  unfold build_vtt in Hrun. rewrite Hloop in Hrun. cbn [bind] in Hrun.
  injection Hrun as <- <-. split.
  - rewrite Hlines. reflexivity.
  - eapply List.Forall_impl; [|exact Hall].
    intros sg Hmem. split; [exact Hmem|].
    destruct (mem_get _ _ Hmem) as [v Hv]. unfold placeholder_in. rewrite Hv.
    apply get_In_values in Hv. rewrite Hvalues in Hv.
    apply in_map_iff in Hv as (i & <- & _).
    apply speaker_label_bracket_free. lia.
Qed.

End Retag.

(** Renaming on the track of an upload touches the cue tags and nothing
    else.  When no cue text holds an opening square bracket and no key and
    no trimmed new name of the form holds a square bracket, the track
    after the request is the track of the same segments, timestamps and
    texts, in which every cue tag carries the name its placeholder was
    renamed to, the pairs taken in the order of the form. *)
Theorem rename_retags_cues (generated_files : gmap string job) (uid : string)
    (j : job) (d : option tracks) (segments : list segment) (pm : Dict.t string)
    (form : list (string * string)) :
  generated_files !! uid = Some j ->
  build_vtt d segments = Ok (job_vtt j, pm) ->
  forallb (fun sg => Str.no_open (seg_text sg)) segments = true ->
  distinct_keys (map fst form) = true ->
  forallb (fun kv => Str.bracket_free (fst kv) && Str.bracket_free (Str.strip (snd kv)))
    form = true ->
  exists track,
    track_after (update_speakers generated_files uid form) uid = Some track /\
    track ++ Str.nl = grammar_track (relabelled form pm) d segments.
Proof.
  intros Hj Hrun Htexts Hd Hform.
  exists (rename_in_order form (job_vtt j)). split; [now apply update_speakers_track|].
  destruct (build_vtt_lines _ _ _ _ Hrun) as [Hvtt Hlab].
  rewrite forallb_forall in Htexts. rewrite forallb_forall in Hform.
  rewrite Hvtt, rename_in_order_retags.
  - rewrite join_lines_closed by discriminate.
    cbn [app map]. rewrite !concat_empty_cons. unfold grammar_track.
    rewrite <- cues_closed.
    replace (flat_map (cue_lines (relabelled form pm) d) segments)
      with (flat_map
              (fun sg => tagged_lines
                           (rename_label form (placeholder_in pm (speaker_of d sg))) sg)
              segments); [now rewrite !append_assoc|].
    apply flat_map_ext_Forall.
    eapply List.Forall_impl; [|exact Hlab].
    intros sg [Hmem _]. unfold cue_lines.
    now rewrite placeholder_in_relabelled.
  - apply List.Forall_forall. intros kv Hin. now apply andb_prop, Hform.
  - rewrite List.Forall_forall in Hlab. apply List.Forall_forall. intros sg Hin.
    split; [now apply Hlab | now apply Htexts].
Qed.

Lemma rename_retags_cues_witness :
  build_vtt (Some Scenario.turns_ABA) Scenario.segments_ABA
  = Ok (job_vtt Scenario.stored, job_placeholder_map Scenario.stored) /\
  exists track,
    track_after
      (update_speakers Scenario.table "job-1" [("SPEAKER_01", " Alice "); ("SPEAKER_02", "")])
      "job-1" = Some track /\
    track ++ Str.nl
    = grammar_track [("A", "Alice"); ("B", "SPEAKER_02")]
        (Some Scenario.turns_ABA) Scenario.segments_ABA.
Proof.
  split; [vm_compute; reflexivity|].
  apply (rename_retags_cues Scenario.table "job-1" Scenario.stored
           (Some Scenario.turns_ABA) Scenario.segments_ABA
           [("A", "SPEAKER_01"); ("B", "SPEAKER_02")]
           [("SPEAKER_01", " Alice "); ("SPEAKER_02", "")]);
    [reflexivity | vm_compute; reflexivity | reflexivity | reflexivity | reflexivity].
Defined.

(** ** Requests one after the other *)

Section Requests.

Lemma setitem_fixed (k : string) (d : Dict.t string) :
  Forall (fun kn => fst kn = snd kn) d ->
  Forall (fun kn => fst kn = snd kn) (Dict.setitem k k d).
Proof.
  induction 1 as [|[k' v'] d Hkv Hd IH]; cbn [Dict.setitem].
  - now repeat constructor.
  - destruct (String.eqb_spec k' k) as [->|_]; constructor;
      first [reflexivity | assumption].
Qed.

Lemma build_new_mapping_fixed (form : list (string * string)) (acc : Dict.t string) :
  Forall (fun kv => new_name (fst kv) (snd kv) = fst kv) form ->
  Forall (fun kn => fst kn = snd kn) acc ->
  Forall (fun kn => fst kn = snd kn) (build_new_mapping form acc).
Proof.
  intros Hform. revert acc.
  induction Hform as [|[k v] rest Hkv _ IH]; intros acc Hacc; [exact Hacc|].
  cbn [build_new_mapping]. cbn [fst snd] in Hkv. rewrite Hkv.
  now apply IH, setitem_fixed.
Qed.

Lemma setitem_keys {V : Type} (k k' : string) (v : V) (d : Dict.t V) :
  In k' (Dict.keys (Dict.setitem k v d)) -> k' = k \/ In k' (Dict.keys d).
Proof.
  induction d as [|[k0 v0] d IH]; cbn [Dict.setitem Dict.keys map fst].
  - intros [<-|[]]. now left.
  - destruct (String.eqb_spec k0 k) as [->|_]; cbn [map fst].
    + intros [<-|H]; [now left | right; now right].
    + intros [<-|H]; [right; now left|].
      destruct (IH H) as [->|H']; [now left | right; now right].
Qed.

Lemma build_new_mapping_keys (items : list (string * string)) (acc : Dict.t string)
    (k : string) :
  In k (Dict.keys (build_new_mapping items acc)) ->
  In k (Dict.keys acc) \/ In k (map fst items).
Proof.
  revert acc. induction items as [|[k0 v0] rest IH]; intros acc H; [now left|].
  cbn [build_new_mapping] in H. cbn [map fst].
  destruct (IH _ H) as [H'|H']; [|right; now right].
  destruct (setitem_keys _ _ _ _ H') as [->|H'']; [right; now left | now left].
Qed.

Lemma distinct_keys_app (a b : list string) :
  distinct_keys (a ++ b) = true -> distinct_keys a = true /\ distinct_keys b = true.
Proof.
  induction a as [|k a IH]; intros H; [now split|].
  cbn [app distinct_keys] in H. apply andb_prop in H as [Hk H].
  destruct (IH H) as [Ha Hb]. split; [|exact Hb].
  cbn [distinct_keys]. rewrite Ha, andb_true_r.
  rewrite existsb_app in Hk. apply negb_true_iff, orb_false_iff in Hk as [Hk _].
  now rewrite Hk.
Qed.

(** A clean mapping leaves no tag of a key it renames. *)
Lemma clean_rename_removes (m : Dict.t string) (track k n : string) :
  clean_mapping m = true -> In (k, n) m -> k <> n ->
  Str.contains (token k) (apply_mapping m track) = false.
Proof.
  intros Hclean Hin Hne. apply clean_mapping_spec in Hclean as [Hbf Hnames].
  rewrite List.Forall_forall in Hnames.
  destruct (Hnames _ Hin) as [|Hall]; [contradiction|].
  now apply (apply_mapping_removes m track k n).
Qed.

Lemma set_vtt_same (j : job) : set_vtt (job_vtt j) j = j.
Proof. now destruct j. Qed.

End Requests.

(** A request in which every name is empty or blank leaves the table as
    it is, whatever its keys. *)
Theorem rename_blank_form (generated_files : gmap string job) (uid : string)
    (form : list (string * string)) :
  forallb (fun kv => String.eqb (Str.strip (snd kv)) "") form = true ->
  fst (update_speakers generated_files uid form) = generated_files.
Proof.
  intros Hblank. unfold update_speakers.
  destruct (generated_files !! uid) as [j|] eqn:Hj; cbn [fst]; [|reflexivity].
  rewrite apply_mapping_fixed.
  - rewrite set_vtt_same. now apply insert_id.
  - eapply List.Forall_impl; [intros kn H; left; exact H|].
    apply build_new_mapping_fixed; [|constructor].
    apply List.Forall_forall. intros [k v] Hin.
    rewrite forallb_forall in Hblank. apply Hblank in Hin. cbn [fst snd] in *.
    unfold new_name. now rewrite Hin.
Qed.

Lemma rename_blank_form_witness :
  fst (update_speakers Scenario.table "job-1"
         [("SPEAKER_01", "  "); ("SPEAKER_02", ""); ("Alice", Str.nl)])
  = Scenario.table.
Proof.
  apply (rename_blank_form Scenario.table "job-1"
           [("SPEAKER_01", "  "); ("SPEAKER_02", ""); ("Alice", Str.nl)]).
  reflexivity.
Defined.

(** Two requests for a job, one after the other, give what one request
    with the pairs of both gives, when no key is submitted twice. *)
Theorem rename_in_two_requests (generated_files : gmap string job) (uid : string)
    (first later : list (string * string)) :
  distinct_keys (map fst (first ++ later)) = true ->
  update_speakers (fst (update_speakers generated_files uid first)) uid later
  = update_speakers generated_files uid (first ++ later).
Proof.
  intros Hd. pose proof Hd as Hboth. rewrite map_app in Hboth.
  apply distinct_keys_app in Hboth as [Hfirst Hlater].
  unfold update_speakers.
  destruct (generated_files !! uid) as [j|] eqn:Hj; cbn [fst]; [|now rewrite Hj].
  rewrite lookup_insert_eq, insert_insert_eq.
  cbn [set_vtt job_vtt job_transcript job_video_path job_placeholder_map].
  rewrite !build_new_mapping_distinct by (assumption || (intros k _ [])).
  cbn [app]. rewrite !apply_mapping_effective, rename_in_order_app. reflexivity.
Qed.

Lemma rename_in_two_requests_witness :
  track_after
    (update_speakers
       (fst (update_speakers Scenario.table "job-1" [("SPEAKER_02", "SPEAKER_01")]))
       "job-1" [("SPEAKER_01", "Bob")]) "job-1"
  = Some (Scenario.track_tagged "Bob" "Bob" "Bob") /\
  update_speakers
    (fst (update_speakers Scenario.table "job-1" [("SPEAKER_02", "SPEAKER_01")]))
    "job-1" [("SPEAKER_01", "Bob")]
  = update_speakers Scenario.table "job-1"
      [("SPEAKER_02", "SPEAKER_01"); ("SPEAKER_01", "Bob")].
Proof.
  split; [vm_compute; reflexivity|].
  apply (rename_in_two_requests Scenario.table "job-1"
           [("SPEAKER_02", "SPEAKER_01")] [("SPEAKER_01", "Bob")]).
  reflexivity.
Defined.

(** After a request with a clean mapping the track holds no tag of a
    key that the request renamed to another name. *)
Theorem renamed_tags_are_gone (generated_files : gmap string job) (uid : string)
    (j : job) (form : list (string * string)) :
  generated_files !! uid = Some j ->
  clean_mapping (build_new_mapping form []) = true ->
  exists track,
    track_after (update_speakers generated_files uid form) uid = Some track /\
    forallb (fun kn => String.eqb (fst kn) (snd kn)
                       || negb (Str.contains (token (fst kn)) track))
      (build_new_mapping form []) = true.
Proof.
  intros Hj Hclean. eexists. split.
  - unfold track_after, update_speakers. rewrite Hj. cbn [fst].
    rewrite lookup_insert_eq. reflexivity.
  - cbn [set_vtt job_vtt]. apply forallb_forall. intros [k n] Hin. cbn [fst snd].
    destruct (String.eqb_spec k n) as [|Hne]; [reflexivity|].
    now rewrite (clean_rename_removes _ _ k n).
Qed.

Lemma renamed_tags_are_gone_witness :
  exists track,
    track_after
      (update_speakers Scenario.table "job-1" [("SPEAKER_01", "Alice"); ("SPEAKER_02", "")])
      "job-1" = Some track /\
    forallb (fun kn => String.eqb (fst kn) (snd kn)
                       || negb (Str.contains (token (fst kn)) track))
      [("SPEAKER_01", "Alice"); ("SPEAKER_02", "SPEAKER_02")] = true.
Proof.
  apply (renamed_tags_are_gone Scenario.table "job-1" Scenario.stored
           [("SPEAKER_01", "Alice"); ("SPEAKER_02", "")]);
    reflexivity.
Defined.

(** A rename is final for the keys it renamed.  After a request with a
    clean mapping, a later request whose keys are all keys that the first
    one gave another name changes nothing, whatever names it submits:
    the tags it asks for are no longer in the track. *)
Theorem rename_is_final (generated_files : gmap string job) (uid : string)
    (first later : list (string * string)) :
  clean_mapping (build_new_mapping first []) = true ->
  forallb
    (fun kv => existsb (fun kn => String.eqb (fst kn) (fst kv)
                                  && negb (String.eqb (fst kn) (snd kn)))
                 (build_new_mapping first []))
    later = true ->
  fst (update_speakers (fst (update_speakers generated_files uid first)) uid later)
  = fst (update_speakers generated_files uid first).
Proof.
  intros Hclean Hkeys. unfold update_speakers.
  destruct (generated_files !! uid) as [j|] eqn:Hj; cbn [fst]; [|now rewrite Hj].
  rewrite lookup_insert_eq. cbn [fst set_vtt job_vtt job_transcript job_video_path
                                  job_placeholder_map].
  rewrite insert_insert_eq.
  rewrite (apply_mapping_fixed (build_new_mapping later [])); [reflexivity|].
  apply List.Forall_forall. intros [k n] Hin. right. cbn [fst].
  assert (Hk : In k (map fst later)).
  { destruct (build_new_mapping_keys later [] k) as [[]|H]; [|exact H].
    apply in_map_iff. now exists (k, n). }
  apply in_map_iff in Hk as ([k' v] & Hfst & Hlater). cbn [fst] in Hfst. subst k'.
  rewrite forallb_forall in Hkeys. apply Hkeys in Hlater.
  apply existsb_exists in Hlater as ([k1 n1] & Hin1 & Hcond). cbn [fst snd] in Hcond.
  apply andb_prop in Hcond as [Heq Hne].
  apply String.eqb_eq in Heq. subst k1.
  apply negb_true_iff, String.eqb_neq in Hne.
  now apply (clean_rename_removes _ _ k n1).
Qed.

Lemma rename_is_final_witness :
  track_after
    (update_speakers Scenario.table "job-1" [("SPEAKER_01", "Alice")]) "job-1"
  = Some (Scenario.track_tagged "Alice" "SPEAKER_02" "Alice") /\
  fst (update_speakers
         (fst (update_speakers Scenario.table "job-1" [("SPEAKER_01", "Alice")]))
         "job-1" [("SPEAKER_01", "Alicia")])
  = fst (update_speakers Scenario.table "job-1" [("SPEAKER_01", "Alice")]).
Proof.
  split; [vm_compute; reflexivity|].
  apply (rename_is_final Scenario.table "job-1"
           [("SPEAKER_01", "Alice")] [("SPEAKER_01", "Alicia")]);
    reflexivity.
Defined.

(** ** The audio file of an upload *)

Section Files.

Lemma occurs_append (c : ascii) (a b : string) :
  occurs c (a ++ b) = occurs c a || occurs c b.
Proof.
  induction a as [|x a IH]; [reflexivity|].
  simpl append. cbn [occurs]. now rewrite IH, orb_assoc.
Qed.

Lemma split_last_sep_base (base : string) :
  occurs "/" base = false -> Path.split_last_sep base = ("", base).
Proof.
  induction base as [|c base IH]; intros H; [reflexivity|].
  cbn [occurs] in H. apply orb_false_iff in H as [Hc Hb].
  cbn [Path.split_last_sep]. rewrite (IH Hb). now rewrite Hc.
Qed.

Lemma split_last_sep_dir (dir base : string) :
  occurs "/" base = false ->
  Path.split_last_sep (dir ++ "/" ++ base) = (dir ++ "/", base).
Proof.
  intros Hb. induction dir as [|c dir IH].
  - simpl append. cbn [Path.split_last_sep]. now rewrite (split_last_sep_base _ Hb).
  - simpl append. cbn [Path.split_last_sep]. simpl append in IH. rewrite IH.
    now destruct dir.
Qed.

Lemma split_last_dot_none (e : string) :
  occurs "." e = false -> Path.split_last_dot e = None.
Proof.
  induction e as [|c e IH]; intros H; [reflexivity|].
  cbn [occurs] in H. apply orb_false_iff in H as [Hc He].
  cbn [Path.split_last_dot]. now rewrite (IH He), Hc.
Qed.

Lemma split_last_dot_ext (a e : string) :
  occurs "." e = false ->
  Path.split_last_dot (a ++ "." ++ e) = Some (a, "." ++ e).
Proof.
  intros He. induction a as [|c a IH].
  - simpl append. cbn [Path.split_last_dot]. now rewrite (split_last_dot_none _ He).
  - simpl append. cbn [Path.split_last_dot]. simpl append in IH. now rewrite IH.
Qed.

(** The base name [u ++ ch :: y ++ "." ++ e], in which [ch] is no dot. *)
Lemma span_dots_ext (u y e : string) (ch : ascii) :
  Ascii.eqb ch "." = false ->
  occurs "." e = false ->
  exists dots rest root,
    Path.span_dots (u ++ String ch (y ++ "." ++ e)) = (dots, rest) /\
    Path.split_last_dot rest = Some (root, "." ++ e) /\
    dots ++ root = u ++ String ch y.
Proof.
  intros Hch He. induction u as [|c u IH].
  - exists "", (String ch (y ++ "." ++ e)), (String ch y). repeat split.
    + simpl append. cbn [Path.span_dots]. now rewrite Hch.
    + exact (split_last_dot_ext (String ch y) e He).
  - destruct (Ascii.eqb c ".") eqn:Hc.
    + destruct IH as (dots & rest & root & Hspan & Hsplit & Hjoin).
      exists (String c dots), rest, root. repeat split.
      * simpl append. cbn [Path.span_dots]. rewrite Hc.
        simpl append in Hspan. now rewrite Hspan.
      * exact Hsplit.
      * simpl append. now rewrite Hjoin.
    + exists "", (String c u ++ String ch (y ++ "." ++ e)), (String c u ++ String ch y).
      repeat split.
      * simpl append. cbn [Path.span_dots]. now rewrite Hc.
      * rewrite <- (split_last_dot_ext (String c u ++ String ch y) e He).
        f_equal. rewrite append_assoc. reflexivity.
Qed.

Lemma splitext_ext (dir u y e : string) (ch : ascii) :
  occurs "/" u = false -> occurs "/" y = false -> occurs "/" e = false ->
  Ascii.eqb ch "/" = false -> Ascii.eqb ch "." = false ->
  occurs "." e = false ->
  Path.splitext (dir ++ "/" ++ u ++ String ch (y ++ "." ++ e))
  = (dir ++ "/" ++ u ++ String ch y, "." ++ e).
Proof.
  intros Hu Hy Hes Hch1 Hch2 He. unfold Path.splitext.
  rewrite split_last_sep_dir.
  - destruct (span_dots_ext u y e ch Hch2 He) as (dots & rest & root & -> & -> & Hjoin).
    now rewrite Hjoin, append_assoc.
  - rewrite occurs_append, Hu. cbn [occurs orb]. rewrite Hch1.
    rewrite !occurs_append, Hy, Hes. reflexivity.
Qed.

Lemma append_inv_head (a b c : string) : a ++ b = a ++ c -> b = c.
Proof.
  induction a as [|x a IH]; intros H; [exact H|].
  simpl append in H. injection H as H. now apply IH.
Qed.

(** The audio file of an upload whose name ends in an extension. *)
Lemma audio_filename_ext (env : collaborators) (name ext : string) :
  occurs "/" (file_uuid env) = false ->
  occurs "/" name = false ->
  occurs "/" ext = false ->
  occurs "." ext = false ->
  audio_filename_of (video_filename_of env (name ++ "." ++ ext))
  = video_filename_of env name ++ ".wav".
Proof.
  intros Hu Hn He1 He2. unfold audio_filename_of, video_filename_of.
  change (tempdir env ++ "/" ++ file_uuid env ++ "_" ++ name ++ "." ++ ext)
    with (tempdir env ++ "/" ++ file_uuid env ++ String "_" (name ++ "." ++ ext)).
  rewrite splitext_ext by (assumption || reflexivity).
  cbn [fst]. now rewrite !append_assoc.
Qed.

End Files.

(** The audio track of an upload is written beside the saved upload under
    the same name with the last extension replaced by [.wav]; it is the
    saved upload itself exactly when that extension is [wav]. *)
Theorem audio_file_beside_upload (env : collaborators) (name ext : string) :
  occurs "/" (file_uuid env) = false ->
  occurs "/" name = false ->
  occurs "/" ext = false ->
  occurs "." ext = false ->
  audio_filename_of (video_filename_of env (name ++ "." ++ ext))
  = video_filename_of env name ++ ".wav" /\
  String.eqb (audio_filename_of (video_filename_of env (name ++ "." ++ ext)))
             (video_filename_of env (name ++ "." ++ ext))
  = String.eqb ext "wav".
Proof.
  intros Hu Hn He1 He2.
  rewrite audio_filename_ext by assumption. split; [reflexivity|].
  unfold video_filename_of. rewrite !append_assoc.
  destruct (String.eqb_spec ext "wav") as [->|Hne].
  - apply String.eqb_refl.
  - apply String.eqb_neq. intros H.
    do 5 apply append_inv_head in H. injection H as H. congruence.
Qed.

Lemma audio_file_beside_upload_witness :
  audio_filename_of "/tmp/3f2a_talk.final.mp4" = "/tmp/3f2a_talk.final.wav" /\
  String.eqb (audio_filename_of "/tmp/3f2a_talk.final.mp4") "/tmp/3f2a_talk.final.mp4"
  = false.
Proof.
  exact (audio_file_beside_upload (Scenario.with_token "hf_token") "talk.final" "mp4"
           eq_refl eq_refl eq_refl eq_refl).
Defined.

(** An upload whose name ends in [.wav] is its own audio file: the
    transcoder is told to write to the file it reads.  If the request
    ends without exception that file has been removed, by the error
    branch of step 2 or by step 6, and in the latter case it is the file
    the stored job serves as its video; if the token error is raised the
    file stays. *)
Theorem wav_upload_is_its_own_audio (generated_files : gmap string job) (req : request)
    (env : collaborators) (name : string) :
  method req = "POST" ->
  files_video req = Some (name ++ ".wav") ->
  occurs "/" (file_uuid env) = false ->
  occurs "/" name = false ->
  let v := video_filename_of env (name ++ ".wav") in
  audio_filename_of v = v /\
  match index generated_files req env with
  | Ok (table, _) =>
      index_files req env = [Saved v; Ran (ffmpeg_command v v); Removed v] /\
      (if ffmpeg_ok env then video table (job_uuid env) = SendPath v
       else table = generated_files)
  | Raise _ => index_files req env = [Saved v; Ran (ffmpeg_command v v)]
  end.
Proof.
  intros Hm Hf Hu Hn v.
  assert (Haudio : audio_filename_of v = v).
  { unfold v. change (name ++ ".wav") with (name ++ "." ++ "wav").
    rewrite audio_filename_ext by (assumption || reflexivity).
    unfold video_filename_of. now rewrite !append_assoc. }
  split; [exact Haudio|].
  assert (Hname : name ++ ".wav" <> "") by (destruct name; discriminate).
  pose proof Hname as Hneq. apply String.eqb_neq in Hneq.
  destruct (ffmpeg_ok env) eqn:Hff.
  2: { unfold index, index_files.
       rewrite Hm, Hf, Hff, String.eqb_refl, Hneq. cbv zeta. fold v.
       rewrite Haudio. cbn [negb app]. auto. }
  destruct (HUGGINGFACE_TOKEN env) as [[|c token]|] eqn:Htok.
  - unfold index, index_files.
    rewrite Hm, Hf, Hff, Htok, String.eqb_refl, Hneq. cbv zeta. fold v.
    rewrite Haudio. reflexivity.
  - destruct (build_vtt_spec (diarized env) (default [] (result_segments env)))
      as (vtt & pm & Hrun & _).
    rewrite (index_accepted _ _ _ (name ++ ".wav") c token vtt pm) by assumption.
    rewrite (index_files_accepted _ _ (name ++ ".wav") c token) by assumption.
    fold v. rewrite Haudio. split; [reflexivity|].
    unfold video. now rewrite lookup_insert_eq.
  - unfold index, index_files.
    rewrite Hm, Hf, Hff, Htok, String.eqb_refl, Hneq. cbv zeta. fold v.
    rewrite Haudio. reflexivity.
Qed.

Lemma wav_upload_is_its_own_audio_witness :
  audio_filename_of "/tmp/3f2a_talk.wav" = "/tmp/3f2a_talk.wav" /\
  match index ∅ {| method := "POST"; files_video := Some "talk.wav" |}
          (Scenario.with_token "hf_token") with
  | Ok (table, _) =>
      index_files {| method := "POST"; files_video := Some "talk.wav" |}
        (Scenario.with_token "hf_token")
      = [ Saved "/tmp/3f2a_talk.wav";
          Ran (ffmpeg_command "/tmp/3f2a_talk.wav" "/tmp/3f2a_talk.wav");
          Removed "/tmp/3f2a_talk.wav" ] /\
      (if ffmpeg_ok (Scenario.with_token "hf_token")
       then video table "job-2" = SendPath "/tmp/3f2a_talk.wav"
       else table = ∅)
  | Raise _ =>
      index_files {| method := "POST"; files_video := Some "talk.wav" |}
        (Scenario.with_token "hf_token")
      = [ Saved "/tmp/3f2a_talk.wav";
          Ran (ffmpeg_command "/tmp/3f2a_talk.wav" "/tmp/3f2a_talk.wav") ]
  end.
Proof.
  exact (wav_upload_is_its_own_audio ∅ {| method := "POST"; files_video := Some "talk.wav" |}
           (Scenario.with_token "hf_token") "talk" eq_refl eq_refl eq_refl eq_refl).
Defined.
